(** * Entry normalisation of the arXiv feed route

    A shallow embedding of [apps/web/src/app/api/papers/route.ts]:
    the feed-shape guard [isArxivRawData], the entry normaliser
    [transformEntryToPaperSummary] and the part of [GET] that runs once
    the XML text has been parsed.

    The parsed tree is an untyped JavaScript value, so the model keeps it
    untyped: every field access goes through [get] and every test the
    route performs ([typeof], truthiness, [Array.isArray], [in]) is
    written out.  Strings are sequences of UTF-16 code units, which is
    what [trim], [\s], [match], [replace] and [startsWith] operate on.
    Console output is not modelled. *)

From Stdlib Require Import String Ascii.
From Stdlib Require Import List NArith ZArith Bool Lia.
From Equations Require Import Equations.
Import ListNotations.

(** ** JavaScript strings *)

Definition code_unit := N.
Definition jsstring := list code_unit.

(** Code units of an ASCII literal. *)
Definition str (s : string) : jsstring :=
  map N_of_ascii (list_ascii_of_string s).

Definition ch_v : code_unit := 0x76%N.
Definition ch_space : code_unit := 0x20%N.

Definition abs_seg : jsstring := Eval cbv in str "/abs/"%string.
Definition pdf_seg : jsstring := Eval cbv in str "/pdf/"%string.
Definition pdf_ext : jsstring := Eval cbv in str ".pdf"%string.
Definition http_scheme : jsstring := Eval cbv in str "http://"%string.
Definition https_scheme : jsstring := Eval cbv in str "https://"%string.
Definition pdf_title : jsstring := Eval cbv in str "pdf"%string.

Definition key_id : jsstring := Eval cbv in str "id"%string.
Definition key_link : jsstring := Eval cbv in str "link"%string.
Definition key_author : jsstring := Eval cbv in str "author"%string.
Definition key_category : jsstring := Eval cbv in str "category"%string.
Definition key_title : jsstring := Eval cbv in str "title"%string.
Definition key_summary : jsstring := Eval cbv in str "summary"%string.
Definition key_published : jsstring := Eval cbv in str "published"%string.
Definition key_updated : jsstring := Eval cbv in str "updated"%string.
Definition key_name : jsstring := Eval cbv in str "name"%string.
Definition key_feed : jsstring := Eval cbv in str "feed"%string.
Definition key_entry : jsstring := Eval cbv in str "entry"%string.
Definition key_at_title : jsstring := Eval cbv in str "@_title"%string.
Definition key_at_href : jsstring := Eval cbv in str "@_href"%string.
Definition key_at_term : jsstring := Eval cbv in str "@_term"%string.

(** The two placeholders, [タイトルなし] and [要約なし]. *)
Definition no_title : jsstring :=
  [0x30BF; 0x30A4; 0x30C8; 0x30EB; 0x306A; 0x3057]%N.
Definition no_summary : jsstring :=
  [0x8981; 0x7D04; 0x306A; 0x3057]%N.

Fixpoint str_eqb (a b : jsstring) : bool :=
  match a, b with
  | [], [] => true
  | x :: a', y :: b' => N.eqb x y && str_eqb a' b'
  | _, _ => false
  end.

Definition is_empty (s : jsstring) : bool :=
  match s with [] => true | _ => false end.

(** ECMAScript [WhiteSpace] and [LineTerminator] code units: the set
    removed by [String.prototype.trim] and matched by [\s]. *)
Definition is_ws (c : code_unit) : bool :=
  ((0x09 <=? c) && (c <=? 0x0D) || (c =? 0x20) || (c =? 0xA0)
   || (c =? 0x1680) || (0x2000 <=? c) && (c <=? 0x200A)
   || (c =? 0x2028) || (c =? 0x2029) || (c =? 0x202F) || (c =? 0x205F)
   || (c =? 0x3000) || (c =? 0xFEFF))%N.

Fixpoint drop_while (p : code_unit -> bool) (s : jsstring) : jsstring :=
  match s with
  | [] => []
  | c :: s' => if p c then drop_while p s' else s
  end.

Fixpoint take_while (p : code_unit -> bool) (s : jsstring) : jsstring :=
  match s with
  | [] => []
  | c :: s' => if p c then c :: take_while p s' else []
  end.

(** [s.trim()] *)
Definition trim (s : jsstring) : jsstring :=
  rev (drop_while is_ws (rev (drop_while is_ws s))).

(** [strip_prefix p s] is what follows [p] when [s] starts with [p]. *)
Fixpoint strip_prefix (p s : jsstring) : option jsstring :=
  match p, s with
  | [], _ => Some s
  | x :: p', y :: s' => if N.eqb x y then strip_prefix p' s' else None
  | _ :: _, [] => None
  end.

(** [s.startsWith(p)] *)
Definition startsWith (s p : jsstring) : bool :=
  match strip_prefix p s with Some _ => true | None => false end.

(** [s.includes(p)] *)
Fixpoint includes (s p : jsstring) : bool :=
  match s with
  | [] => startsWith [] p
  | _ :: s' => startsWith s p || includes s' p
  end.

(** [s.replace(p, r)] for a string pattern [p] and a replacement [r]
    without [$]: the first occurrence only. *)
Fixpoint replace (s p r : jsstring) : jsstring :=
  match strip_prefix p s with
  | Some rest => r ++ rest
  | None => match s with
            | [] => []
            | c :: s' => c :: replace s' p r
            end
  end.

(** [s.match(/\/abs\/([^v]+)/)?.[1]]: the leftmost position where
    [/abs/] is followed by a code unit other than [v]; the group is the
    longest run of such code units. *)
Definition not_v (c : code_unit) : bool := negb (N.eqb c ch_v).

Fixpoint match_abs (s : jsstring) : option jsstring :=
  match s with
  | [] => None
  | _ :: s' =>
      match strip_prefix abs_seg s with
      | Some rest =>
          match take_while not_v rest with
          | [] => match_abs s'
          | tok => Some tok
          end
      | None => match_abs s'
      end
  end.

(** [s.replace(/\s\s+/g, ' ')]: scanning from the left, a whitespace
    code unit followed by another one starts a match that extends over
    the whole run and is replaced by one space; any other code unit is
    copied. *)
Equations? replace_ws_runs (s : jsstring) : jsstring by wf (length s) lt :=
  replace_ws_runs [] := [];
  replace_ws_runs [c] := [c];
  replace_ws_runs (c :: d :: s') with is_ws c && is_ws d => {
    | true := ch_space :: replace_ws_runs (drop_while is_ws s');
    | false := c :: replace_ws_runs (d :: s') }.
Proof.
  clear. induction s' as [|x s' IH]; simpl; [lia|].
  destruct (is_ws x); simpl; lia.
Qed.

(** ** Parsed values *)

(** What the XML reader hands over.  The payload of a number is kept as
    an integer: the route only looks at the type and the truthiness of
    numbers. *)
#[local] Unset Elimination Schemes.
Inductive JSValue : Type :=
| JUndefined
| JNull
| JBool (b : bool)
| JNum (n : Z)
| JStr (s : jsstring)
| JArr (items : list JSValue)
| JObj (props : list (jsstring * JSValue)).
#[local] Set Elimination Schemes.

(** Own properties of an object, first binding of a key. *)
Fixpoint lookup (k : jsstring) (props : list (jsstring * JSValue))
  : option JSValue :=
  match props with
  | [] => None
  | (k', v) :: rest => if str_eqb k k' then Some v else lookup k rest
  end.

(** [x[k]] for the keys the route reads, none of which is an index,
    [length] or a prototype member: [undefined] unless [x] is an object
    that has the key. *)
Definition get (x : JSValue) (k : jsstring) : JSValue :=
  match x with
  | JObj props => match lookup k props with Some v => v | None => JUndefined end
  | _ => JUndefined
  end.

(** [k in x] for an [x] whose [typeof] is ['object'] and is not null. *)
Definition has_key (k : jsstring) (x : JSValue) : bool :=
  match x with
  | JObj props => match lookup k props with Some _ => true | None => false end
  | _ => false
  end.

(** ToBoolean *)
Definition truthy (x : JSValue) : bool :=
  match x with
  | JUndefined | JNull => false
  | JBool b => b
  | JNum n => negb (Z.eqb n 0)
  | JStr s => negb (is_empty s)
  | JArr _ | JObj _ => true
  end.

(** [typeof x === 'object'] *)
Definition typeof_object (x : JSValue) : bool :=
  match x with
  | JNull | JArr _ | JObj _ => true
  | _ => false
  end.

Definition is_null (x : JSValue) : bool :=
  match x with JNull => true | _ => false end.

(** [typeof x === 'string' ? x : undefined] *)
Definition as_string (x : JSValue) : option jsstring :=
  match x with JStr s => Some s | _ => None end.

(** [Array.isArray(x) ? x : (x ? [x] : [])] *)
Definition to_array (x : JSValue) : list JSValue :=
  match x with
  | JArr items => items
  | _ => if truthy x then [x] else []
  end.

(** ** The route *)

Record PaperSummary : Type := mkPaperSummary {
  id : jsstring;
  title : jsstring;
  summary : jsstring;
  authors : list jsstring;
  published : jsstring;
  updated : jsstring;
  pdfLink : jsstring;
  categories : list jsstring
}.

(** Lines 71-77. *)
Definition isArxivRawData (data : JSValue) : bool :=
  if negb (typeof_object data) || is_null data then false else true.

(** The predicate handed to [entryLinks.find], lines 94-95. *)
Definition is_pdf_link (link : JSValue) : bool :=
  negb (is_null link) && typeof_object link && has_key key_at_title link
  && match get link key_at_title with
     | JStr t => str_eqb t pdf_title
     | _ => false
     end
  && match get link key_at_href with JStr _ => true | _ => false end.

(** Lines 91-104: the link found among the entry's links, else the one
    made from the id. *)
Definition resolve_pdfLink (idUrl : option jsstring) (link : JSValue)
  : jsstring :=
  let entryLinks := to_array link in
  let pdfEntry := find is_pdf_link entryLinks in
  let pdfLink :=
    match pdfEntry with
    | Some l => match get l key_at_href with JStr h => h | _ => [] end
    | None => []
    end in
  match idUrl with
  | Some u =>
      if is_empty pdfLink && includes u abs_seg then
        let potentialPdfLink := replace u abs_seg pdf_seg ++ pdf_ext in
        if startsWith potentialPdfLink http_scheme
           || startsWith potentialPdfLink https_scheme
        then potentialPdfLink else pdfLink
      else pdfLink
  | None => pdfLink
  end.

(** [.filter(x => x !== null && x.length > 0)] *)
Definition keep_nonempty (l : list (option jsstring)) : list jsstring :=
  flat_map (fun o => match o with
                     | Some s => if is_empty s then [] else [s]
                     | None => []
                     end) l.

(** Lines 107-111. *)
Definition author_name (auth : JSValue) : option jsstring :=
  if truthy auth then
    match get auth key_name with JStr n => Some (trim n) | _ => None end
  else None.

Definition extract_authors (author : JSValue) : list jsstring :=
  keep_nonempty (map author_name (to_array author)).

(** Lines 113-117. *)
Definition category_term (cat : JSValue) : option jsstring :=
  if truthy cat then
    match get cat key_at_term with JStr t => Some t | _ => None end
  else None.

Definition extract_categories (category : JSValue) : list jsstring :=
  keep_nonempty (map category_term (to_array category)).

(** Lines 119-121: [typeof x === 'string' ? x.trim().replace(..) : undefined) ?? d]. *)
Definition clean_text (x : JSValue) (placeholder : jsstring) : jsstring :=
  match as_string x with
  | Some s => replace_ws_runs (trim s)
  | None => placeholder
  end.

(** Lines 122-123. *)
Definition timestamp (x : JSValue) : jsstring :=
  match as_string x with Some s => s | None => [] end.

(** Lines 86-89: the identifier, [None] when the entry is skipped. *)
Definition extract_arxivId (idUrl : option jsstring) : option jsstring :=
  match idUrl with
  | Some u => if is_empty u then None else
                match match_abs u with
                | Some a => if is_empty a then None else Some a
                | None => None
                end
  | None => None
  end.

(** Lines 91-134: the record built once the identifier is known. *)
Definition build_summary (entryItem : JSValue) (idUrl : option jsstring)
  (arxivId : jsstring) : PaperSummary :=
  {| id := arxivId;
     title := clean_text (get entryItem key_title) no_title;
     summary := clean_text (get entryItem key_summary) no_summary;
     authors := extract_authors (get entryItem key_author);
     published := timestamp (get entryItem key_published);
     updated := timestamp (get entryItem key_updated);
     pdfLink := resolve_pdfLink idUrl (get entryItem key_link);
     categories := extract_categories (get entryItem key_category) |}.

(** Lines 83-135. *)
Definition transformEntryToPaperSummary (entryItem : JSValue)
  : option PaperSummary :=
  if negb (truthy entryItem) then None else
  let idUrl := as_string (get entryItem key_id) in
  match extract_arxivId idUrl with
  | None => None
  | Some arxivId => Some (build_summary entryItem idUrl arxivId)
  end.

(** What [GET] answers once the text is parsed: a JSON body of
    summaries (status 200) or an error body with its status. *)
Inductive Response : Type :=
| JsonPapers (papers : list PaperSummary)
| JsonError (status : nat) (error : jsstring).

Definition unexpected_format : jsstring :=
  Eval cbv in str "Failed to parse arXiv data. Unexpected format received."%string.

(** [.map(transformEntryToPaperSummary).filter(paper => paper !== null)] *)
Definition map_filter_entries (entries : list JSValue) : list PaperSummary :=
  flat_map (fun e => match transformEntryToPaperSummary e with
                     | Some p => [p]
                     | None => []
                     end) entries.

(** Lines 185-196: from the feed's [entry] field to the summaries. *)
Definition normalize_entries (entriesRaw : JSValue) : list PaperSummary :=
  let entriesArray := to_array entriesRaw in
  if (0 <? length entriesArray)%nat then map_filter_entries entriesArray
  else [].

(** Lines 180-199 of [GET]. *)
Definition GET_parsed (parsedData : JSValue) : Response :=
  if negb (isArxivRawData parsedData)
     || negb (truthy (get parsedData key_feed))
  then JsonError 500 unexpected_format
  else JsonPapers (normalize_entries (get (get parsedData key_feed) key_entry)).

(** ** Building test entries *)

Definition prop (k : string) (v : JSValue) : jsstring * JSValue :=
  (str k, v).
Definition jstr (s : string) : JSValue := JStr (str s).

(** The entry of the specification's end-to-end scenario and the
    summary it describes. *)
Definition sample_entry : JSValue :=
  JObj [prop "id" (jstr "http://x/abs/9999.1111v2");
        prop "title" (jstr "  A   B ");
        prop "author" (JObj [prop "name" (jstr " C ")]);
        prop "category" (JObj [prop "@_term" (jstr "cs.AI")]);
        prop "link" (JObj [prop "@_title" (jstr "pdf");
                           prop "@_href" (jstr "http://x/pdf/9999.1111v2.pdf")])].

Definition sample_summary : PaperSummary :=
  {| id := str "9999.1111"; title := str "A B"; summary := no_summary;
     authors := [str "C"]; published := []; updated := [];
     pdfLink := str "http://x/pdf/9999.1111v2.pdf";
     categories := [str "cs.AI"] |}.

(** ** Whitespace at the ends *)

Definition starts_clean (s : jsstring) : bool :=
  match s with [] => true | c :: _ => negb (is_ws c) end.

Definition ends_clean (s : jsstring) : bool := starts_clean (rev s).


(** ** Vocabulary of the specification *)

(** [s.indexOf(p)] *)
Fixpoint indexOf (s p : jsstring) : option nat :=
  if startsWith s p then Some 0 else
  match s with
  | [] => None
  | _ :: s' => option_map S (indexOf s' p)
  end.

(** "Contains [/abs/] followed by at least one character". *)
Fixpoint abs_followed (s : jsstring) : bool :=
  match s with
  | [] => false
  | _ :: s' =>
      match strip_prefix abs_seg s with
      | Some (_ :: _) => true
      | _ => abs_followed s'
      end
  end.

(** A string the route itself takes for an absolute URL (line 101). *)
Definition is_absolute_url (s : jsstring) : bool :=
  startsWith s http_scheme || startsWith s https_scheme.

(** The maximal runs of a string; the flag tells a whitespace run from
    a run of other code units. *)
Fixpoint runs (s : jsstring) : list (bool * jsstring) :=
  match s with
  | [] => []
  | c :: s' =>
      match runs s' with
      | (w, r) :: g =>
          if Bool.eqb w (is_ws c) then (w, c :: r) :: g
          else (is_ws c, [c]) :: (w, r) :: g
      | [] => [(is_ws c, [c])]
      end
  end.

(** "Collapse every run of two-or-more whitespace characters into a
    single space", as the specification words it. *)
Definition collapse_run (r : bool * jsstring) : jsstring :=
  if fst r && (2 <=? length (snd r))%nat then [ch_space] else snd r.

Definition collapse_runs (s : jsstring) : jsstring :=
  flat_map collapse_run (runs s).

(** No two whitespace code units in a row. *)
Fixpoint single_spaced (s : jsstring) : bool :=
  match s with
  | c :: (d :: _) as s' => negb (is_ws c && is_ws d) && single_spaced s'
  | _ => true
  end.

(** A link the specification calls usable: titled [pdf], with a
    non-empty string for its href. *)
Definition usable_pdf_link (link : JSValue) : bool :=
  match get link key_at_title, get link key_at_href with
  | JStr t, JStr h => str_eqb t pdf_title && negb (is_empty h)
  | _, _ => false
  end.

(** A link titled [pdf] whose href is a string, empty or not. *)
Definition pdf_titled_link (link : JSValue) : bool :=
  match get link key_at_title, get link key_at_href with
  | JStr t, JStr _ => str_eqb t pdf_title
  | _, _ => false
  end.

(** A parsed root that is a primitive rather than an object. *)
Definition is_primitive (x : JSValue) : bool :=
  match x with
  | JUndefined | JBool _ | JNum _ | JStr _ => true
  | JNull | JArr _ | JObj _ => false
  end.

(** The author and the category a single element contributes. *)
Definition author_of (auth : JSValue) : list jsstring :=
  match get auth key_name with
  | JStr n => if is_empty (trim n) then [] else [trim n]
  | _ => []
  end.

Definition term_of (cat : JSValue) : list jsstring :=
  match get cat key_at_term with
  | JStr t => if is_empty t then [] else [t]
  | _ => []
  end.

(** Writing and removing a property of an object. *)
Fixpoint set_field (k : jsstring) (v : JSValue)
  (props : list (jsstring * JSValue)) : list (jsstring * JSValue) :=
  match props with
  | [] => [(k, v)]
  | (k', v') :: rest =>
      if str_eqb k k' then (k, v) :: rest
      else (k', v') :: set_field k v rest
  end.

Fixpoint del_field (k : jsstring) (props : list (jsstring * JSValue))
  : list (jsstring * JSValue) :=
  match props with
  | [] => []
  | (k', v') :: rest =>
      if str_eqb k k' then del_field k rest
      else (k', v') :: del_field k rest
  end.

(** The id of a summary, when there is one. *)
Definition id_of (r : option PaperSummary) : option jsstring :=
  option_map id r.

(** ** The upstream request *)

Definition ARXIV_API_URL : jsstring :=
  Eval cbv in str "http://export.arxiv.org/api/query".
Definition DEFAULT_CATEGORY : jsstring := Eval cbv in str "cat:cs.AI".
Definition DEFAULT_MAX_RESULTS : jsstring := Eval cbv in str "10".

Definition submittedDate : jsstring := Eval cbv in str "submittedDate".
Definition relevance : jsstring := Eval cbv in str "relevance".
Definition descending : jsstring := Eval cbv in str "descending".

(** [searchParams.get(k)] is a string or null. [x || d] on such a value
    takes [d] for null and for the empty string. *)
Definition or_else (x : option jsstring) (d : jsstring) : jsstring :=
  match x with
  | Some s => if is_empty s then d else s
  | None => d
  end.

(** Truthiness of a string or null. *)
Definition given (x : option jsstring) : bool :=
  match x with
  | Some s => negb (is_empty s)
  | None => false
  end.

(** The object handed to [new URLSearchParams], lines 156-162. *)
Record ArxivQuery : Type := mkArxivQuery {
  search_query : jsstring;
  sortBy : jsstring;
  sortOrder : jsstring;
  start : jsstring;
  max_results : jsstring
}.

(** Lines 140-162 of [GET]: from the three request parameters to the
    parameters of the upstream query. *)
Definition queryParams (query start max_results : option jsstring)
  : ArxivQuery :=
  let start := or_else start (str "0") in
  let max_results := or_else max_results DEFAULT_MAX_RESULTS in
  let use_query :=
    match query with
    | Some q => negb (is_empty q) && negb (str_eqb (trim q) [])
    | None => false
    end in
  {| search_query :=
       match query with
       | Some q => if use_query then trim q else DEFAULT_CATEGORY
       | None => DEFAULT_CATEGORY
       end;
     sortBy := if use_query then relevance else submittedDate;
     sortOrder := descending;
     start := start;
     max_results := max_results |}.

(** Line 167: [revalidate: query ? 600 : 3600]. *)
Definition revalidate (query : option jsstring) : nat :=
  if given query then 600 else 3600.

(** ** More vocabulary *)

(** The properties of an entry the normaliser reads. *)
Definition read_keys : list jsstring :=
  [key_id; key_title; key_summary; key_author; key_published;
   key_updated; key_link; key_category].

(** What is left of a string once its whitespace is taken out. *)
Definition visible (s : jsstring) : jsstring :=
  filter (fun c => negb (is_ws c)) s.

(** "Contains [/abs/] followed by a character other than [v]". *)
Fixpoint abs_followed_by_other (s : jsstring) : bool :=
  match s with
  | [] => false
  | _ :: s' =>
      match strip_prefix abs_seg s with
      | Some (c :: _) => if not_v c then true else abs_followed_by_other s'
      | _ => abs_followed_by_other s'
      end
  end.

(** "Normalize to ordered sequence", as the specification words it:
    absent gives the empty sequence, a sequence is left as it is, any
    other single value gives the one-element sequence. *)
Definition sequence_of (x : JSValue) : list JSValue :=
  match x with
  | JUndefined => []
  | JArr items => items
  | _ => [x]
  end.

(** An entry with several authors and categories: repeated ones, one
    that is blank, one whose name is a number and one that is a bare
    string. *)
Definition crowded_entry : JSValue :=
  JObj [prop "id" (jstr "http://x/abs/2401.00001v1");
        prop "author"
          (JArr [JObj [prop "name" (jstr " B ")];
                 JObj [prop "name" (JNum 5)];
                 JObj [prop "name" (jstr "A")];
                 JObj [prop "name" (jstr "   ")];
                 jstr "D";
                 JObj [prop "name" (jstr "B")]]);
        prop "category"
          (JArr [JObj [prop "@_term" (jstr "cs.LG")];
                 JObj [prop "@_scheme" (jstr "s")];
                 JObj [prop "@_term" (jstr "cs.AI")];
                 JObj [prop "@_term" (jstr "")];
                 JObj [prop "@_term" (jstr "cs.LG")]])].

Definition crowded_summary : PaperSummary :=
  {| id := str "2401.00001"; title := no_title; summary := no_summary;
     authors := [str "B"; str "A"; str "B"]; published := []; updated := [];
     pdfLink := str "http://x/pdf/2401.00001v1.pdf";
     categories := [str "cs.LG"; str "cs.AI"; str "cs.LG"] |}.

(** * Properties *)

Example end_to_end :
  GET_parsed (JObj [prop "feed" (JObj [prop "entry" (JArr [sample_entry])])])
  = JsonPapers [sample_summary].
Proof. reflexivity. Qed.

(** ** Strings: basic facts *)

Section StringFacts.

Lemma str_eqb_refl (a : jsstring) : str_eqb a a = true.
Proof.
  induction a as [|x a IH]; simpl; [reflexivity|].
  now rewrite N.eqb_refl.
Qed.

Lemma str_eqb_eq (a b : jsstring) : str_eqb a b = true <-> a = b.
Proof.
  split; [|intros ->; apply str_eqb_refl].
  revert b; induction a as [|x a IH]; intros [|y b]; simpl; try easy.
  intros H. apply andb_prop in H as [Hx Hab].
  apply N.eqb_eq in Hx. apply IH in Hab. congruence.
Qed.

Lemma str_eqb_neq (a b : jsstring) : str_eqb a b = false <-> a <> b.
Proof.
  rewrite <- str_eqb_eq. destruct (str_eqb a b); split; congruence.
Qed.

Lemma strip_prefix_Some (p s r : jsstring) :
  strip_prefix p s = Some r <-> s = p ++ r.
Proof.
  revert s; induction p as [|x p IH]; intros s; simpl.
  - split; congruence.
  - destruct s as [|y s]; [split; discriminate|].
    destruct (N.eqb_spec x y) as [->|Hxy].
    + rewrite IH. split; congruence.
    + split; [discriminate|]. intros H; injection H; congruence.
Qed.

Lemma strip_prefix_app (p r : jsstring) : strip_prefix p (p ++ r) = Some r.
Proof. now apply strip_prefix_Some. Qed.

Lemma startsWith_true (s p : jsstring) :
  startsWith s p = true <-> exists r, s = p ++ r.
Proof.
  unfold startsWith. destruct (strip_prefix p s) as [r|] eqn:E.
  - apply strip_prefix_Some in E. split; eauto.
  - split; [discriminate|]. intros [r Hr].
    apply strip_prefix_Some in Hr. congruence.
Qed.

Lemma includes_true (s p : jsstring) :
  includes s p = true <-> exists a b, s = a ++ p ++ b.
Proof.
  induction s as [|c s IH]; simpl.
  - rewrite startsWith_true. split.
    + intros [r Hr]. exists [], r. exact Hr.
    + intros (a & b & H). destruct a; [eauto|discriminate].
  - rewrite orb_true_iff, startsWith_true, IH. split.
    + intros [[r Hr]|(a & b & H)].
      * exists [], r. exact Hr.
      * exists (c :: a), b. simpl. now rewrite H.
    + intros (a & b & H). destruct a as [|x a]; simpl in H.
      * left. eauto.
      * right. exists a, b. congruence.
Qed.

Lemma take_drop_while (p : code_unit -> bool) (s : jsstring) :
  take_while p s ++ drop_while p s = s.
Proof.
  induction s as [|c s IH]; simpl; [reflexivity|].
  destruct (p c); simpl; congruence.
Qed.

Lemma take_while_all (p : code_unit -> bool) (s : jsstring) :
  forallb p (take_while p s) = true.
Proof.
  induction s as [|c s IH]; simpl; [reflexivity|].
  destruct (p c) eqn:E; simpl; [now rewrite E|reflexivity].
Qed.

Lemma take_while_app_stop (p : code_unit -> bool) (a r : jsstring) :
  forallb p a = true ->
  match r with [] => True | c :: _ => p c = false end ->
  take_while p (a ++ r) = a.
Proof.
  intros Ha Hr. induction a as [|x a IH]; simpl in *.
  - destruct r as [|c r]; simpl; [reflexivity|now rewrite Hr].
  - apply andb_prop in Ha as [Hx Ha]. rewrite Hx. f_equal. auto.
Qed.

Lemma drop_while_head (p : code_unit -> bool) (s : jsstring) :
  match drop_while p s with [] => True | c :: _ => p c = false end.
Proof.
  induction s as [|c s IH]; simpl; [exact I|].
  destruct (p c) eqn:E; [exact IH|exact E].
Qed.

Lemma drop_while_snoc (p : code_unit -> bool) (s : jsstring) (c : code_unit) :
  p c = false -> drop_while p (s ++ [c]) = drop_while p s ++ [c].
Proof.
  intros Hc. induction s as [|x s IH]; simpl.
  - now rewrite Hc.
  - destruct (p x); [exact IH|reflexivity].
Qed.

Lemma drop_while_length (p : code_unit -> bool) (s : jsstring) :
  length (drop_while p s) <= length s.
Proof.
  induction s as [|x s IH]; simpl; [lia|].
  destruct (p x); simpl; lia.
Qed.

End StringFacts.

(** ** Whitespace at the ends: facts *)

Lemma drop_while_starts_clean (s : jsstring) :
  starts_clean (drop_while is_ws s) = true.
Proof.
  unfold starts_clean. pose proof (drop_while_head is_ws s) as H.
  destruct (drop_while is_ws s); [reflexivity|now rewrite H].
Qed.

Lemma starts_clean_drop_while (s : jsstring) :
  starts_clean s = true -> drop_while is_ws s = s.
Proof.
  destruct s as [|c s]; simpl; [reflexivity|].
  now destruct (is_ws c).
Qed.

Lemma trim_ends_clean (s : jsstring) : ends_clean (trim s) = true.
Proof.
  unfold ends_clean, trim. rewrite rev_involutive.
  apply drop_while_starts_clean.
Qed.

Lemma trim_starts_clean (s : jsstring) : starts_clean (trim s) = true.
Proof.
  unfold trim. pose proof (drop_while_starts_clean s) as H.
  destruct (drop_while is_ws s) as [|c u]; [reflexivity|].
  simpl in H. apply negb_true_iff in H.
  simpl rev. rewrite drop_while_snoc by exact H.
  rewrite rev_app_distr. simpl. now rewrite H.
Qed.

Lemma trim_fixed (s : jsstring) :
  starts_clean s = true -> ends_clean s = true -> trim s = s.
Proof.
  intros Hs He. unfold trim.
  rewrite (starts_clean_drop_while s Hs).
  rewrite (starts_clean_drop_while (rev s) He).
  apply rev_involutive.
Qed.

Lemma trim_idempotent (s : jsstring) : trim (trim s) = trim s.
Proof. apply trim_fixed; [apply trim_starts_clean|apply trim_ends_clean]. Qed.

(** ** The identifier pattern *)

Lemma not_v_false (c : code_unit) : not_v c = false <-> c = ch_v.
Proof.
  unfold not_v. rewrite negb_false_iff. apply N.eqb_eq.
Qed.

Lemma match_abs_cons (c : code_unit) (s : jsstring) :
  match_abs (c :: s) =
  match strip_prefix abs_seg (c :: s) with
  | Some rest =>
      match take_while not_v rest with
      | [] => match_abs s
      | tok => Some tok
      end
  | None => match_abs s
  end.
Proof. reflexivity. Qed.

Lemma match_abs_tail (c : code_unit) (s : jsstring) :
  match_abs (c :: s) = None -> match_abs s = None.
Proof.
  rewrite match_abs_cons.
  destruct (strip_prefix abs_seg (c :: s)) as [rest|]; [|easy].
  now destruct (take_while not_v rest).
Qed.

(** A match is a non-empty [v]-free stretch of the id that follows an
    [/abs/] and runs to the end of the id or to the next [v]. *)
Lemma match_abs_Some (s tok : jsstring) :
  match_abs s = Some tok ->
  tok <> [] /\ forallb not_v tok = true /\
  exists P R, s = P ++ abs_seg ++ tok ++ R /\
              (R = [] \/ exists R', R = ch_v :: R').
Proof.
  induction s as [|c s IH]; [discriminate|].
  rewrite match_abs_cons.
  destruct (strip_prefix abs_seg (c :: s)) as [rest|] eqn:E.
  - destruct (take_while not_v rest) as [|t tok'] eqn:T.
    + intros H. destruct (IH H) as (Hne & Hv & P & R & -> & HR).
      repeat split; trivial. now exists (c :: P), R.
    + intros H. injection H as <-.
      split; [discriminate|].
      split; [pose proof (take_while_all not_v rest) as Ht;
              rewrite T in Ht; exact Ht|].
      apply strip_prefix_Some in E.
      exists [], (drop_while not_v rest). split.
      * rewrite E, <- T, take_drop_while. reflexivity.
      * pose proof (drop_while_head not_v rest) as Hd.
        destruct (drop_while not_v rest) as [|d R']; [now left|right].
        apply not_v_false in Hd. subst d. now exists R'.
  - intros H. destruct (IH H) as (Hne & Hv & P & R & -> & HR).
    repeat split; trivial. now exists (c :: P), R.
Qed.

(** No match: every [/abs/] of the id ends it or is followed by [v]. *)
Lemma match_abs_None (s : jsstring) :
  match_abs s = None <->
  forall P c R, s = P ++ abs_seg ++ c :: R -> c = ch_v.
Proof.
  split.
  - induction s as [|x s IH]; intros H P c R Hs.
    + destruct P; discriminate.
    + destruct P as [|y P].
      * rewrite match_abs_cons, Hs in H.
        change ([] ++ abs_seg ++ c :: R) with (abs_seg ++ c :: R) in H.
        rewrite strip_prefix_app in H. simpl take_while in H.
        destruct (not_v c) eqn:Hc; [discriminate|now apply not_v_false].
      * apply match_abs_tail in H.
        change ((y :: P) ++ abs_seg ++ c :: R)
          with (y :: (P ++ abs_seg ++ c :: R)) in Hs.
        injection Hs as -> ->. exact (IH H P c R eq_refl).
  - induction s as [|x s IH]; intros H; [reflexivity|].
    assert (Hs : match_abs s = None).
    { apply IH. intros P c R ->. apply (H (x :: P) c R). reflexivity. }
    rewrite match_abs_cons.
    destruct (strip_prefix abs_seg (x :: s)) as [rest|] eqn:E; [|exact Hs].
    apply strip_prefix_Some in E.
    destruct rest as [|d R]; [exact Hs|].
    rewrite (H [] d R E). exact Hs.
Qed.

Lemma indexOf_cons_S (c : code_unit) (s p : jsstring) (n : nat) :
  indexOf (c :: s) p = Some (S n) ->
  startsWith (c :: s) p = false /\ indexOf s p = Some n.
Proof.
  simpl. destruct (startsWith (c :: s) p); [discriminate|].
  destruct (indexOf s p); simpl; [|discriminate].
  intros H; injection H as ->. auto.
Qed.

Lemma strip_prefix_of_startsWith_false (s p : jsstring) :
  startsWith s p = false -> strip_prefix p s = None.
Proof. unfold startsWith. now destruct (strip_prefix p s). Qed.

Lemma match_abs_at_abs (X : jsstring) :
  match_abs (abs_seg ++ X) =
  match take_while not_v X with
  | [] => match_abs (tl abs_seg ++ X)
  | tok => Some tok
  end.
Proof. reflexivity. Qed.

(** When the first [/abs/] of the id is followed by a non-empty
    [v]-free stretch that ends the id or stops at a [v], that stretch is
    the match. *)
Lemma match_abs_first (P ID R : jsstring) :
  indexOf (P ++ abs_seg ++ ID ++ R) abs_seg = Some (length P) ->
  ID <> [] -> forallb not_v ID = true ->
  (R = [] \/ exists R', R = ch_v :: R') ->
  match_abs (P ++ abs_seg ++ ID ++ R) = Some ID.
Proof.
  intros Hi Hne Hv HR. induction P as [|x P IH].
  - change ([] ++ abs_seg ++ ID ++ R) with (abs_seg ++ ID ++ R).
    rewrite match_abs_at_abs, take_while_app_stop; trivial.
    + destruct ID; [contradiction|reflexivity].
    + destruct HR as [->|[R' ->]]; [exact I|reflexivity].
  - simpl app in *. apply indexOf_cons_S in Hi as [Hs Hi].
    rewrite match_abs_cons, (strip_prefix_of_startsWith_false _ _ Hs).
    auto.
Qed.

Lemma abs_followed_false (s : jsstring) :
  abs_followed s = false ->
  forall P c R, s <> P ++ abs_seg ++ c :: R.
Proof.
  induction s as [|x s IH]; intros H P c R Hs.
  - destruct P; discriminate.
  - change (abs_followed (x :: s))
      with (match strip_prefix abs_seg (x :: s) with
            | Some (_ :: _) => true
            | _ => abs_followed s
            end) in H.
    destruct P as [|y P].
    + rewrite Hs in H.
      change ([] ++ abs_seg ++ c :: R) with (abs_seg ++ c :: R) in H.
      rewrite strip_prefix_app in H. discriminate.
    + change ((y :: P) ++ abs_seg ++ c :: R)
        with (y :: (P ++ abs_seg ++ c :: R)) in Hs.
      injection Hs as Hx Hs'.
      refine (IH _ P c R Hs').
      destruct (strip_prefix abs_seg (x :: s)) as [[|? ?]|]; easy.
Qed.

Lemma abs_followed_true (s : jsstring) :
  abs_followed s = true <-> exists P c R, s = P ++ abs_seg ++ c :: R.
Proof.
  split.
  - induction s as [|x s IH]; [discriminate|].
    change (abs_followed (x :: s))
      with (match strip_prefix abs_seg (x :: s) with
            | Some (_ :: _) => true
            | _ => abs_followed s
            end).
    destruct (strip_prefix abs_seg (x :: s)) as [[|c R]|] eqn:E.
    + intros H. destruct (IH H) as (P & c & R & ->).
      now exists (x :: P), c, R.
    + intros _. apply strip_prefix_Some in E. now exists [], c, R.
    + intros H. destruct (IH H) as (P & c & R & ->).
      now exists (x :: P), c, R.
  - intros (P & c & R & H).
    destruct (abs_followed s) eqn:E; [reflexivity|].
    now destruct (abs_followed_false s E P c R).
Qed.

(** [indexOf] gives the place of the first occurrence. *)
Lemma indexOf_Some (s p : jsstring) (n : nat) :
  indexOf s p = Some n ->
  (exists a b, s = a ++ p ++ b /\ length a = n)
  /\ (forall a b, s = a ++ p ++ b -> n <= length a).
Proof.
  revert n. induction s as [|x s IH]; intros n; simpl.
  - destruct (startsWith [] p) eqn:E; [|discriminate].
    intros H; injection H as <-. split; [|intros; lia].
    apply startsWith_true in E as [r Hr]. now exists [], r.
  - destruct (startsWith (x :: s) p) eqn:E.
    + intros H; injection H as <-. split; [|intros; lia].
      apply startsWith_true in E as [r Hr]. now exists [], r.
    + destruct (indexOf s p) as [m|]; [|discriminate]. simpl.
      intros H; injection H as <-.
      destruct (IH m eq_refl) as [(a & b & -> & Hlen) Hmin]. split.
      * exists (x :: a), b. simpl. now rewrite Hlen.
      * intros [|y a'] b' Hs.
        -- assert (Hst : startsWith (x :: a ++ p ++ b) p = true)
             by (apply startsWith_true; now exists b').
           congruence.
        -- simpl in Hs. injection Hs as _ Hs.
           specialize (Hmin a' b' Hs). simpl. lia.
Qed.

(** ** Acceptance and rejection of an entry *)

Lemma get_defined_truthy (e : JSValue) (k : jsstring) :
  get e k <> JUndefined -> truthy e = true.
Proof. destruct e; simpl; congruence. Qed.

Lemma transform_accept (e : JSValue) (u a : jsstring) :
  get e key_id = JStr u -> match_abs u = Some a ->
  transformEntryToPaperSummary e = Some (build_summary e (Some u) a).
Proof.
  intros Hid Hm. unfold transformEntryToPaperSummary.
  rewrite (get_defined_truthy e key_id) by (rewrite Hid; discriminate).
  rewrite Hid. simpl negb. cbv iota. simpl as_string. unfold extract_arxivId.
  destruct u as [|c u]; [discriminate|]. simpl is_empty. cbv iota.
  rewrite Hm. destruct (match_abs_Some _ _ Hm) as [Hne _].
  destruct a; [contradiction|reflexivity].
Qed.

Lemma transform_Some (e : JSValue) (p : PaperSummary) :
  transformEntryToPaperSummary e = Some p ->
  exists u, get e key_id = JStr u /\ match_abs u = Some (id p) /\
            p = build_summary e (Some u) (id p).
Proof.
  unfold transformEntryToPaperSummary.
  destruct (truthy e); simpl negb; cbv iota; [|discriminate].
  destruct (get e key_id) as [| | | |u| |] eqn:Hid; simpl; try discriminate.
  destruct (is_empty u); [discriminate|].
  destruct (match_abs u) as [a|] eqn:Hm; [|discriminate].
  destruct (is_empty a); [discriminate|].
  intros H; injection H as <-. exists u. simpl. auto.
Qed.

Lemma transform_None (e : JSValue) :
  transformEntryToPaperSummary e = None <->
  match get e key_id with JStr u => match_abs u = None | _ => True end.
Proof.
  split.
  - intros H. destruct (get e key_id) as [| | | |u| |] eqn:Hid; trivial.
    destruct (match_abs u) as [a|] eqn:Hm; [|reflexivity].
    rewrite (transform_accept e _ _ Hid Hm) in H. discriminate.
  - intros H.
    destruct (transformEntryToPaperSummary e) as [p|] eqn:T; [|reflexivity].
    apply transform_Some in T as (u & Hid & Hm & _).
    rewrite Hid in H. congruence.
Qed.

(** ** The collection *)

Lemma map_filter_entries_app (l1 l2 : list JSValue) :
  map_filter_entries (l1 ++ l2) = map_filter_entries l1 ++ map_filter_entries l2.
Proof. apply flat_map_app. Qed.

Lemma normalize_entries_array (l : list JSValue) :
  normalize_entries (JArr l) = map_filter_entries l.
Proof.
  unfold normalize_entries. simpl to_array.
  destruct l; reflexivity.
Qed.

Lemma keep_nonempty_Forall (Q : jsstring -> Prop) (l : list (option jsstring)) :
  (forall s, In (Some s) l -> s <> [] -> Q s) ->
  Forall Q (keep_nonempty l).
Proof.
  intros H. unfold keep_nonempty. apply Forall_flat_map, Forall_forall.
  intros [s|] Hin; [|constructor].
  destruct s as [|c s]; simpl; [constructor|].
  constructor; [|constructor]. apply H; [exact Hin|discriminate].
Qed.

(** ** Collapsing whitespace runs *)

Lemma replace_ws_runs_cons2 (c d : code_unit) (s : jsstring) :
  replace_ws_runs (c :: d :: s) =
  if is_ws c && is_ws d then ch_space :: replace_ws_runs (drop_while is_ws s)
  else c :: replace_ws_runs (d :: s).
Proof.
  simp replace_ws_runs. destruct (is_ws c && is_ws d); reflexivity.
Qed.

Lemma replace_ws_runs_nonws (c : code_unit) (s : jsstring) :
  is_ws c = false -> replace_ws_runs (c :: s) = c :: replace_ws_runs s.
Proof.
  intros Hc. destruct s as [|d s].
  - now simp replace_ws_runs.
  - now rewrite replace_ws_runs_cons2, Hc.
Qed.

(** Induction on the length of a string, for the functions that skip
    ahead. *)
Lemma jsstring_length_ind (Q : jsstring -> Prop) :
  (forall s, (forall t, length t < length s -> Q t) -> Q s) ->
  forall s, Q s.
Proof.
  intros step s. remember (length s) as n eqn:Hn. revert s Hn.
  induction n as [n IH] using lt_wf_ind. intros s ->.
  apply step. intros t Ht. exact (IH _ Ht t eq_refl).
Qed.

Lemma runs_head (c : code_unit) (s : jsstring) :
  exists r g, runs (c :: s) = (is_ws c, c :: r) :: g.
Proof.
  simpl. destruct (runs s) as [|[w r] g]; [now exists [], []|].
  destruct (Bool.eqb w (is_ws c)) eqn:E.
  - apply eqb_prop in E. subst w. now exists r, g.
  - now exists [], ((w, r) :: g).
Qed.

Lemma runs_ws_run (c : code_unit) (s : jsstring) :
  is_ws c = true ->
  runs (c :: s) = (true, c :: take_while is_ws s) :: runs (drop_while is_ws s).
Proof.
  revert c. induction s as [|d s IH]; intros c Hc.
  - simpl. now rewrite Hc.
  - change (runs (c :: d :: s))
      with (match runs (d :: s) with
            | (w, r) :: g =>
                if Bool.eqb w (is_ws c) then (w, c :: r) :: g
                else (is_ws c, [c]) :: (w, r) :: g
            | [] => [(is_ws c, [c])]
            end).
    simpl take_while. simpl drop_while. destruct (is_ws d) eqn:Hd.
    + rewrite (IH d Hd), Hc. reflexivity.
    + destruct (runs_head d s) as (r & g & ->). rewrite Hd, Hc. reflexivity.
Qed.

Lemma collapse_runs_nonws (c : code_unit) (s : jsstring) :
  is_ws c = false -> collapse_runs (c :: s) = c :: collapse_runs s.
Proof.
  intros Hc. unfold collapse_runs. simpl runs.
  destruct (runs s) as [|[w r] g]; rewrite Hc; [reflexivity|].
  destruct w; reflexivity.
Qed.

Lemma collapse_runs_ws (c : code_unit) (s : jsstring) :
  is_ws c = true ->
  collapse_runs (c :: s) =
  (if is_empty (take_while is_ws s) then [c] else [ch_space])
  ++ collapse_runs (drop_while is_ws s).
Proof.
  intros Hc. unfold collapse_runs. rewrite (runs_ws_run c s Hc).
  simpl flat_map. f_equal. unfold collapse_run. simpl.
  now destruct (take_while is_ws s).
Qed.

(** The scan of [/\s\s+/g] does what the specification says. *)
Lemma replace_ws_runs_collapse (s : jsstring) :
  replace_ws_runs s = collapse_runs s.
Proof.
  induction s as [s IH] using jsstring_length_ind.
  destruct s as [|c [|d s]]; [reflexivity| |].
  - simp replace_ws_runs. unfold collapse_runs. simpl.
    unfold collapse_run. simpl. now rewrite andb_false_r.
  - rewrite replace_ws_runs_cons2.
    destruct (is_ws c) eqn:Hc; [destruct (is_ws d) eqn:Hd|]; simpl andb.
    + rewrite (collapse_runs_ws c (d :: s) Hc). simpl. rewrite Hd. simpl.
      f_equal. apply IH. simpl.
      pose proof (drop_while_length is_ws s). lia.
    + rewrite (collapse_runs_ws c (d :: s) Hc). simpl. rewrite Hd. simpl.
      f_equal. apply IH. simpl. lia.
    + rewrite (collapse_runs_nonws c (d :: s) Hc).
      f_equal. apply IH. simpl. lia.
Qed.

Lemma single_spaced_cons2 (c d : code_unit) (s : jsstring) :
  single_spaced (c :: d :: s) =
  negb (is_ws c && is_ws d) && single_spaced (d :: s).
Proof. reflexivity. Qed.

Lemma single_spaced_nonws (c : code_unit) (s : jsstring) :
  is_ws c = false -> single_spaced (c :: s) = single_spaced s.
Proof. intros Hc. destruct s; simpl; [reflexivity|now rewrite Hc]. Qed.

Lemma replace_ws_runs_single_spaced (s : jsstring) :
  single_spaced (replace_ws_runs s) = true.
Proof.
  induction s as [s IH] using jsstring_length_ind.
  destruct s as [|c [|d s]]; [reflexivity|reflexivity|].
  rewrite replace_ws_runs_cons2.
  destruct (is_ws c) eqn:Hc; [destruct (is_ws d) eqn:Hd|]; simpl andb; cbv iota.
  - assert (Hl : length (drop_while is_ws s) < length (c :: d :: s)).
    { simpl. pose proof (drop_while_length is_ws s). lia. }
    specialize (IH _ Hl). pose proof (drop_while_head is_ws s) as Hh.
    destruct (drop_while is_ws s) as [|x t]; [reflexivity|].
    rewrite (replace_ws_runs_nonws x t Hh) in *.
    rewrite single_spaced_cons2, Hh, andb_false_r. exact IH.
  - assert (Hl : length (d :: s) < length (c :: d :: s)) by (simpl; lia).
    specialize (IH _ Hl). rewrite (replace_ws_runs_nonws d s Hd) in *.
    rewrite single_spaced_cons2, Hd, andb_false_r. exact IH.
  - rewrite (single_spaced_nonws c _ Hc). apply IH. simpl. lia.
Qed.

Lemma replace_ws_runs_starts_clean (s : jsstring) :
  starts_clean s = true -> starts_clean (replace_ws_runs s) = true.
Proof.
  destruct s as [|c s]; [reflexivity|]. simpl. intros Hc.
  apply negb_true_iff in Hc. rewrite (replace_ws_runs_nonws c s Hc).
  simpl. now rewrite Hc.
Qed.

Lemma replace_ws_runs_snoc (s : jsstring) (c : code_unit) :
  is_ws c = false -> exists X, replace_ws_runs (s ++ [c]) = X ++ [c].
Proof.
  intros Hc. induction s as [s IH] using jsstring_length_ind.
  destruct s as [|a [|b s]].
  - now exists [].
  - exists [a]. simpl app. now rewrite replace_ws_runs_cons2, Hc, andb_false_r.
  - change ((a :: b :: s) ++ [c]) with (a :: b :: (s ++ [c])).
    rewrite replace_ws_runs_cons2. destruct (is_ws a && is_ws b).
    + rewrite (drop_while_snoc is_ws s c Hc).
      destruct (IH (drop_while is_ws s)) as [X HX].
      { simpl. pose proof (drop_while_length is_ws s). lia. }
      rewrite HX. now exists (ch_space :: X).
    + destruct (IH (b :: s)) as [X HX]; [simpl; lia|].
      change (b :: s ++ [c]) with ((b :: s) ++ [c]).
      rewrite HX. now exists (a :: X).
Qed.

Lemma replace_ws_runs_ends_clean (s : jsstring) :
  ends_clean s = true -> ends_clean (replace_ws_runs s) = true.
Proof.
  unfold ends_clean. intros H.
  destruct (rev s) as [|c l] eqn:E.
  - apply (f_equal (@rev code_unit)) in E. rewrite rev_involutive in E.
    now rewrite E.
  - apply (f_equal (@rev code_unit)) in E. rewrite rev_involutive in E.
    simpl in E, H. apply negb_true_iff in H.
    destruct (replace_ws_runs_snoc (rev l) c H) as [X HX].
    rewrite E, HX, rev_app_distr. simpl. now rewrite H.
Qed.

(** ** Links *)

Lemma is_pdf_link_titled (l : JSValue) :
  is_pdf_link l = pdf_titled_link l.
Proof.
  unfold is_pdf_link, pdf_titled_link, has_key, get.
  destruct l as [| | | | | |props]; try reflexivity.
  simpl. destruct (lookup key_at_title props) as [t|]; [|reflexivity].
  simpl. destruct t; try reflexivity.
  destruct (lookup key_at_href props) as [h|];
    [destruct h|]; simpl; rewrite ?andb_false_r, ?andb_true_r; reflexivity.
Qed.

Lemma pdf_titled_link_true (l : JSValue) :
  pdf_titled_link l = true <->
  get l key_at_title = JStr pdf_title /\ exists h, get l key_at_href = JStr h.
Proof.
  unfold pdf_titled_link.
  destruct (get l key_at_title) as [| | | |t| |];
    try (split; [discriminate|intros [? _]; discriminate]).
  destruct (get l key_at_href) as [| | | |h| |];
    try (split; [discriminate|intros [_ [? ?]]; discriminate]).
  rewrite str_eqb_eq. split.
  - intros ->. eauto.
  - intros [H _]. congruence.
Qed.


Lemma usable_pdf_link_true (l : JSValue) :
  usable_pdf_link l = true <->
  get l key_at_title = JStr pdf_title
  /\ exists h, get l key_at_href = JStr h /\ h <> [].
Proof.
  unfold usable_pdf_link.
  destruct (get l key_at_title) as [| | | |t| |];
    try (split; [discriminate|intros [? _]; discriminate]).
  destruct (get l key_at_href) as [| | | |h| |];
    try (split; [discriminate|intros [_ [? [? _]]]; discriminate]).
  rewrite andb_true_iff, str_eqb_eq, negb_true_iff. split.
  - intros [-> Hh]. split; [reflexivity|]. exists h.
    split; [reflexivity|]. now destruct h.
  - intros [Ht (h' & Hh & Hne)]. injection Ht as ->. injection Hh as ->.
    split; [reflexivity|]. now destruct h'.
Qed.


(** The href the search among the links comes back with (lines 93-97). *)
Lemma found_href_empty (links : list JSValue) :
  existsb usable_pdf_link links = false ->
  match find is_pdf_link links with
  | Some l => match get l key_at_href with JStr h => h | _ => [] end
  | None => []
  end = [].
Proof.
  intros H. destruct (find is_pdf_link links) as [l|] eqn:F; [|reflexivity].
  apply find_some in F as [Hin Hl].
  rewrite is_pdf_link_titled in Hl.
  assert (Hu : usable_pdf_link l = false).
  { destruct (usable_pdf_link l) eqn:U; [|reflexivity].
    rewrite <- H. symmetry. apply existsb_exists. eauto. }
  unfold pdf_titled_link in Hl. unfold usable_pdf_link in Hu.
  destruct (get l key_at_title); try discriminate.
  destruct (get l key_at_href) as [| | | |h| |]; try reflexivity.
  rewrite Hl in Hu. now destruct h.
Qed.

Lemma replace_keeps_http (u : jsstring) :
  startsWith u http_scheme = true ->
  startsWith (replace u abs_seg pdf_seg ++ pdf_ext) http_scheme = true.
Proof.
  intros H. apply startsWith_true in H as [r ->].
  apply startsWith_true.
  change (replace (http_scheme ++ r) abs_seg pdf_seg)
    with (removelast http_scheme ++
          match strip_prefix (tl abs_seg) r with
          | Some rest => pdf_seg ++ rest
          | None => 0x2F%N :: replace r abs_seg pdf_seg
          end).
  destruct (strip_prefix (tl abs_seg) r) as [rest|];
    eexists; reflexivity.
Qed.

Lemma replace_keeps_https (u : jsstring) :
  startsWith u https_scheme = true ->
  startsWith (replace u abs_seg pdf_seg ++ pdf_ext) https_scheme = true.
Proof.
  intros H. apply startsWith_true in H as [r ->].
  apply startsWith_true.
  change (replace (https_scheme ++ r) abs_seg pdf_seg)
    with (removelast https_scheme ++
          match strip_prefix (tl abs_seg) r with
          | Some rest => pdf_seg ++ rest
          | None => 0x2F%N :: replace r abs_seg pdf_seg
          end).
  destruct (strip_prefix (tl abs_seg) r) as [rest|];
    eexists; reflexivity.
Qed.

Lemma match_abs_includes (u a : jsstring) :
  match_abs u = Some a -> includes u abs_seg = true.
Proof.
  intros H. apply match_abs_Some in H as (_ & _ & P & R & -> & _).
  apply includes_true. eauto.
Qed.

(** ** Authors and categories *)

Lemma get_falsy (x : JSValue) (k : jsstring) :
  truthy x = false -> get x k = JUndefined.
Proof. destruct x; simpl; congruence. Qed.

Lemma extract_authors_flat_map (author : JSValue) :
  extract_authors author = flat_map author_of (to_array author).
Proof.
  unfold extract_authors, keep_nonempty.
  rewrite flat_map_concat_map, map_map, <- flat_map_concat_map.
  apply flat_map_ext. intros a. unfold author_name, author_of.
  destruct (truthy a) eqn:Ta.
  - destruct (get a key_name); reflexivity.
  - now rewrite (get_falsy a key_name Ta).
Qed.

Lemma extract_categories_flat_map (category : JSValue) :
  extract_categories category = flat_map term_of (to_array category).
Proof.
  unfold extract_categories, keep_nonempty.
  rewrite flat_map_concat_map, map_map, <- flat_map_concat_map.
  apply flat_map_ext. intros a. unfold category_term, term_of.
  destruct (truthy a) eqn:Ta.
  - destruct (get a key_at_term); reflexivity.
  - now rewrite (get_falsy a key_at_term Ta).
Qed.

Lemma author_of_trimmed (auth : JSValue) :
  Forall (fun a => trim a <> []) (author_of auth).
Proof.
  unfold author_of. destruct (get auth key_name) as [| | | |n| |];
    try constructor.
  destruct (trim n) as [|c t] eqn:E; simpl; constructor; [|constructor].
  rewrite <- E, trim_idempotent, E. discriminate.
Qed.

Lemma term_of_nonempty (cat : JSValue) :
  Forall (fun c => c <> []) (term_of cat).
Proof.
  unfold term_of. destruct (get cat key_at_term) as [| | | |t| |];
    try constructor.
  destruct t; simpl; constructor; [discriminate|constructor].
Qed.

(** ** Objects *)

Lemma lookup_set_field (k k' : jsstring) (v : JSValue)
  (props : list (jsstring * JSValue)) :
  lookup k' (set_field k v props) =
  if str_eqb k' k then Some v else lookup k' props.
Proof.
  induction props as [|[k0 v0] props IH]; simpl.
  - destruct (str_eqb k' k); reflexivity.
  - destruct (str_eqb k k0) eqn:E; simpl.
    + apply str_eqb_eq in E. subst k0.
      destruct (str_eqb k' k); reflexivity.
    + rewrite IH. destruct (str_eqb k' k0) eqn:E0; [|reflexivity].
      apply str_eqb_eq in E0. subst k0.
      destruct (str_eqb k' k) eqn:E1; [|reflexivity].
      apply str_eqb_eq in E1. subst k'.
      rewrite str_eqb_refl in E. discriminate.
Qed.

Lemma lookup_del_field (k k' : jsstring) (props : list (jsstring * JSValue)) :
  lookup k' (del_field k props) =
  if str_eqb k' k then None else lookup k' props.
Proof.
  induction props as [|[k0 v0] props IH]; simpl.
  - destruct (str_eqb k' k); reflexivity.
  - destruct (str_eqb k k0) eqn:E; simpl.
    + apply str_eqb_eq in E. subst k0. rewrite IH.
      destruct (str_eqb k' k); reflexivity.
    + rewrite IH. destruct (str_eqb k' k0) eqn:E0; [|reflexivity].
      apply str_eqb_eq in E0. subst k0.
      destruct (str_eqb k' k) eqn:E1; [|reflexivity].
      apply str_eqb_eq in E1. subst k'.
      rewrite str_eqb_refl in E. discriminate.
Qed.

Lemma get_set_field (k k' : jsstring) (v : JSValue)
  (props : list (jsstring * JSValue)) :
  get (JObj (set_field k v props)) k' =
  if str_eqb k' k then v else get (JObj props) k'.
Proof.
  unfold get. rewrite lookup_set_field. now destruct (str_eqb k' k).
Qed.

Lemma get_del_field (k k' : jsstring) (props : list (jsstring * JSValue)) :
  get (JObj (del_field k props)) k' =
  if str_eqb k' k then JUndefined else get (JObj props) k'.
Proof.
  unfold get. rewrite lookup_del_field. now destruct (str_eqb k' k).
Qed.

(** The normaliser reads an entry through eight properties, and the
    three that may be sequences only through [to_array]. *)
Lemma transform_congr (e1 e2 : JSValue) :
  truthy e1 = truthy e2 ->
  get e1 key_id = get e2 key_id ->
  get e1 key_title = get e2 key_title ->
  get e1 key_summary = get e2 key_summary ->
  get e1 key_published = get e2 key_published ->
  get e1 key_updated = get e2 key_updated ->
  to_array (get e1 key_link) = to_array (get e2 key_link) ->
  to_array (get e1 key_author) = to_array (get e2 key_author) ->
  to_array (get e1 key_category) = to_array (get e2 key_category) ->
  transformEntryToPaperSummary e1 = transformEntryToPaperSummary e2.
Proof.
  intros Ht Hi Hti Hs Hp Hu Hl Ha Hc.
  unfold transformEntryToPaperSummary, build_summary, resolve_pdfLink,
    extract_authors, extract_categories.
  now rewrite Ht, Hi, Hti, Hs, Hp, Hu, Hl, Ha, Hc.
Qed.

(** ** Rejected entries *)

Lemma abs_followed_by_other_false (s : jsstring) :
  abs_followed_by_other s = false <-> match_abs s = None.
Proof.
  induction s as [|x s IH]; [easy|].
  rewrite match_abs_cons.
  change (abs_followed_by_other (x :: s))
    with (match strip_prefix abs_seg (x :: s) with
          | Some (c :: _) =>
              if not_v c then true else abs_followed_by_other s
          | _ => abs_followed_by_other s
          end).
  destruct (strip_prefix abs_seg (x :: s)) as [[|c r]|]; try exact IH.
  simpl take_while. destruct (not_v c); [|exact IH].
  split; discriminate.
Qed.

(** What [abs_followed_by_other] says, without the scan. *)
Lemma abs_followed_by_other_true (s : jsstring) :
  abs_followed_by_other s = true <->
  exists P c R, s = P ++ abs_seg ++ c :: R /\ c <> ch_v.
Proof.
  split.
  - intros H. destruct (match_abs s) as [tok|] eqn:E.
    + apply match_abs_Some in E as (Hne & Hv & P & R & -> & _).
      destruct tok as [|c tok]; [contradiction|].
      exists P, c, (tok ++ R). split; [reflexivity|].
      simpl in Hv. apply andb_prop in Hv as [Hc _].
      intros ->. discriminate.
    + apply abs_followed_by_other_false in E. congruence.
  - intros (P & c & R & Hs & Hc).
    destruct (abs_followed_by_other s) eqn:E; [reflexivity|].
    apply abs_followed_by_other_false in E.
    now destruct (Hc (proj1 (match_abs_None s) E P c R Hs)).
Qed.

Lemma rejected_entry_dropped (e : JSValue) (before after : list JSValue) :
  transformEntryToPaperSummary e = None ->
  normalize_entries (JArr (before ++ e :: after))
  = normalize_entries (JArr before) ++ normalize_entries (JArr after).
Proof.
  intros Hnone. rewrite !normalize_entries_array.
  rewrite map_filter_entries_app. f_equal.
  change (e :: after) with ([e] ++ after).
  rewrite map_filter_entries_app. unfold map_filter_entries at 1.
  simpl. now rewrite Hnone.
Qed.

Lemma rejected_single_entry (e : JSValue) :
  transformEntryToPaperSummary e = None ->
  (forall items, e <> JArr items) -> normalize_entries e = [].
Proof.
  intros Hnone Harr. unfold normalize_entries.
  assert (Hsingle : to_array e = [] \/ to_array e = [e]).
  { destruct e; simpl; auto; try (now destruct (negb _); auto).
    - destruct b; auto.
    - now destruct (Harr items). }
  destruct Hsingle as [-> | ->]; [reflexivity|].
  simpl. now rewrite Hnone.
Qed.

(** * The claims *)

(** ** Identity extraction *)

(** C1, as stated, fails: the group of the pattern stops at the first
    [v], so an identifier that has a [v] of its own is cut there, and an
    earlier [/abs/] in the id takes the match. *)
Lemma id_cut_at_inner_v :
  str "http://arxiv.org/abs/solv-int/9901001v1"
  = str "http://arxiv.org" ++ abs_seg ++ str "solv-int/9901001"
      ++ ch_v :: str "1"
  /\ id_of (transformEntryToPaperSummary
              (JObj [prop "id" (jstr "http://arxiv.org/abs/solv-int/9901001v1")]))
     = Some (str "sol")
  /\ str "sol" <> str "solv-int/9901001"
  /\ str "http://mirror.org/abs/old/abs/1234.5678"
     = str "http://mirror.org/abs/old" ++ abs_seg ++ str "1234.5678" ++ []
  /\ id_of (transformEntryToPaperSummary
              (JObj [prop "id" (jstr "http://mirror.org/abs/old/abs/1234.5678")]))
     = Some (str "old/abs/1234.5678").
Proof. repeat split; try reflexivity. discriminate. Qed.

(** C1 (amended): when the id is [P/abs/<ID>] or [P/abs/<ID>v<N>], this
    [/abs/] is the first one of the id, and [<ID>] is non-empty and has
    no [v] in it, the entry is accepted and the summary's id is exactly
    [<ID>]. *)
Theorem id_extracted_from_first_abs (e : JSValue) (P ID R : jsstring) :
  get e key_id = JStr (P ++ abs_seg ++ ID ++ R) ->
  indexOf (P ++ abs_seg ++ ID ++ R) abs_seg = Some (length P) ->
  ID <> [] ->
  forallb not_v ID = true ->
  R = [] \/ (exists N, R = ch_v :: N) ->
  exists p, transformEntryToPaperSummary e = Some p /\ id p = ID.
Proof.
  intros Hid Hfirst Hne Hv HR.
  pose proof (match_abs_first P ID R Hfirst Hne Hv HR) as Hm.
  eexists. split; [exact (transform_accept e _ _ Hid Hm)|reflexivity].
Qed.

Lemma id_extracted_from_first_abs_witness :
  exists p,
    transformEntryToPaperSummary
      (JObj [prop "id" (jstr "http://arxiv.org/abs/1234.5678v2")]) = Some p
    /\ id p = str "1234.5678".
Proof.
  apply (id_extracted_from_first_abs
           (JObj [prop "id" (jstr "http://arxiv.org/abs/1234.5678v2")])
           (str "http://arxiv.org") (str "1234.5678") (str "v2")).
  - reflexivity.
  - reflexivity.
  - discriminate.
  - reflexivity.
  - right. exists (str "2"). reflexivity.
Defined.

(** C2, as stated, fails: an id may have [/abs/] followed by a
    character and still be rejected, when that character is [v]. *)
Lemma id_with_abs_then_v_rejected :
  str "http://x/abs/v1" = str "http://x" ++ abs_seg ++ ch_v :: str "1"
  /\ abs_followed (str "http://x/abs/v1") = true
  /\ transformEntryToPaperSummary (JObj [prop "id" (jstr "http://x/abs/v1")])
     = None.
Proof. repeat split. Qed.

(** C2 (amended): an entry whose id is missing, is not a string, or has
    no [/abs/] followed by a character other than [v] is rejected, the
    collection holds no record for it and the records of the other
    entries are the ones they would have without it; and this is the
    only condition under which an entry is rejected. An id without
    [/abs/] followed by any character at all is a case of it. *)
Theorem reject_iff_no_abs_before_other (e : JSValue)
  (Hid : match get e key_id with
         | JStr u => abs_followed_by_other u = false
         | _ => True
         end) :
  transformEntryToPaperSummary e = None
  /\ (forall before after,
        normalize_entries (JArr (before ++ e :: after))
        = normalize_entries (JArr before) ++ normalize_entries (JArr after))
  /\ ((forall items, e <> JArr items) -> normalize_entries e = [])
  /\ (forall e',
        transformEntryToPaperSummary e' = None <->
        match get e' key_id with
        | JStr u => abs_followed_by_other u = false
        | _ => True
        end)
  /\ (forall u, abs_followed u = false -> abs_followed_by_other u = false).
Proof.
  assert (Hnone : transformEntryToPaperSummary e = None).
  { apply transform_None. destruct (get e key_id) as [| | | |u| |]; trivial.
    now apply abs_followed_by_other_false. }
  split; [exact Hnone|]. split; [|split; [|split]].
  - intros before after. now apply rejected_entry_dropped.
  - intros Harr. now apply rejected_single_entry.
  - intros e'. rewrite transform_None.
    destruct (get e' key_id); try reflexivity.
    symmetry. apply abs_followed_by_other_false.
  - intros u Hu. apply abs_followed_by_other_false, match_abs_None.
    intros P c R H. now destruct (abs_followed_false u Hu P c R).
Qed.

Lemma reject_iff_no_abs_before_other_witness :
  transformEntryToPaperSummary (JObj [prop "id" (jstr "http://x/abs/v1")])
  = None
  /\ normalize_entries
       (JArr ([sample_entry] ++ JObj [prop "id" (jstr "http://x/abs/v1")]
              :: [crowded_entry]))
     = normalize_entries (JArr [sample_entry])
       ++ normalize_entries (JArr [crowded_entry]).
Proof.
  destruct (reject_iff_no_abs_before_other
              (JObj [prop "id" (jstr "http://x/abs/v1")]) eq_refl)
    as (Hnone & Hcoll & _).
  split; [exact Hnone|apply Hcoll].
Defined.

(** ** PDF link resolution *)

Lemma pdfLink_of_accepted (e : JSValue) (p : PaperSummary) :
  transformEntryToPaperSummary e = Some p ->
  exists u, get e key_id = JStr u /\ includes u abs_seg = true /\
            pdfLink p = resolve_pdfLink (Some u) (get e key_link).
Proof.
  intros H. apply transform_Some in H as (u & Hid & Hm & Hp).
  exists u. split; [exact Hid|]. split; [exact (match_abs_includes _ _ Hm)|].
  now rewrite Hp.
Qed.




(** C4: with no usable link titled [pdf] among the links and an id that
    contains [/abs/], the pdfLink is the id with its first [/abs/]
    replaced by [/pdf/] and [.pdf] appended when that begins with
    [http://] or [https://], and the empty string otherwise; the id
    [http://example.org/abs/1234.5678] gives
    [http://example.org/pdf/1234.5678.pdf]. *)
Theorem pdfLink_synthesized_from_id (e : JSValue) (p : PaperSummary)
  (u : jsstring) :
  transformEntryToPaperSummary e = Some p ->
  get e key_id = JStr u ->
  existsb usable_pdf_link (to_array (get e key_link)) = false ->
  includes u abs_seg = true ->
  pdfLink p =
    (let potentialPdfLink := replace u abs_seg pdf_seg ++ pdf_ext in
     if is_absolute_url potentialPdfLink then potentialPdfLink else [])
  /\ (u = str "http://example.org/abs/1234.5678" ->
      pdfLink p = str "http://example.org/pdf/1234.5678.pdf").
Proof.
  intros Hp Hid Hlinks Habs.
  apply pdfLink_of_accepted in Hp as (u' & Hid' & _ & Hpdf).
  assert (u' = u) by congruence. subst u'.
  assert (Hres : pdfLink p =
    (let potentialPdfLink := replace u abs_seg pdf_seg ++ pdf_ext in
     if is_absolute_url potentialPdfLink then potentialPdfLink else [])).
  { rewrite Hpdf. unfold resolve_pdfLink.
    rewrite (found_href_empty _ Hlinks), Habs. reflexivity. }
  split; [exact Hres|]. intros ->. exact Hres.
Qed.

Lemma pdfLink_synthesized_from_id_witness :
  option_map pdfLink
    (transformEntryToPaperSummary
       (JObj [prop "id" (jstr "http://example.org/abs/1234.5678")]))
  = Some (str "http://example.org/pdf/1234.5678.pdf").
Proof.
  pose (e := JObj [prop "id" (jstr "http://example.org/abs/1234.5678")]).
  pose (p := build_summary e (Some (str "http://example.org/abs/1234.5678"))
               (str "1234.5678")).
  destruct (pdfLink_synthesized_from_id e p
              (str "http://example.org/abs/1234.5678")
              eq_refl eq_refl eq_refl eq_refl) as [_ H].
  exact (f_equal Some (H eq_refl)).
Defined.

(** C10: an accepted entry whose id begins with [http://] or
    [https://] has a non-empty pdfLink, so an empty pdfLink is only
    found on accepted entries whose id begins with neither. *)
Theorem pdfLink_nonempty_for_http_id (e : JSValue) (p : PaperSummary)
  (u : jsstring) :
  transformEntryToPaperSummary e = Some p ->
  get e key_id = JStr u ->
  (is_absolute_url u = true -> pdfLink p <> [])
  /\ (pdfLink p = [] -> is_absolute_url u = false).
Proof.
  intros Hp Hid.
  assert (Hmain : is_absolute_url u = true -> pdfLink p <> []).
  { intros Hurl.
    apply pdfLink_of_accepted in Hp as (u' & Hid' & Habs & ->).
    assert (u' = u) by congruence. subst u'.
    unfold resolve_pdfLink.
    destruct (match find is_pdf_link (to_array (get e key_link)) with
              | Some l => match get l key_at_href with
                          | JStr h => h
                          | _ => []
                          end
              | None => []
              end) as [|c found]; simpl is_empty.
    - rewrite Habs. simpl andb. cbv iota.
      assert (Hkeep : startsWith (replace u abs_seg pdf_seg ++ pdf_ext) http_scheme
                      || startsWith (replace u abs_seg pdf_seg ++ pdf_ext) https_scheme
                      = true).
      { unfold is_absolute_url in Hurl.
        apply orb_true_iff in Hurl as [H|H].
        - now rewrite (replace_keeps_http u H).
        - rewrite (replace_keeps_https u H). apply orb_true_r. }
      rewrite Hkeep. intros Hempty.
      rewrite Hempty in Hkeep. discriminate.
    - discriminate. }
  split; [exact Hmain|].
  intros Hempty. destruct (is_absolute_url u); [|reflexivity].
  now destruct (Hmain eq_refl).
Qed.

Lemma pdfLink_nonempty_for_http_id_witness :
  pdfLink (build_summary
             (JObj [prop "id" (jstr "https://arxiv.org/abs/2401.00001v3")])
             (Some (str "https://arxiv.org/abs/2401.00001v3"))
             (str "2401.00001")) <> [].
Proof.
  apply (pdfLink_nonempty_for_http_id
           (JObj [prop "id" (jstr "https://arxiv.org/abs/2401.00001v3")])
           (build_summary
              (JObj [prop "id" (jstr "https://arxiv.org/abs/2401.00001v3")])
              (Some (str "https://arxiv.org/abs/2401.00001v3"))
              (str "2401.00001"))
           (str "https://arxiv.org/abs/2401.00001v3")
           eq_refl eq_refl).
  reflexivity.
Defined.

(** ** One object or a sequence *)

(** C5: writing the single object of [author], [category] or [link] as
    the one-element sequence that holds it, or the other way round,
    leaves the normaliser's result as it was, and so does writing an
    absent field as the empty sequence. *)
Theorem single_object_as_sequence (k : jsstring)
  (props o : list (jsstring * JSValue)) :
  In k [key_author; key_category; key_link] ->
  transformEntryToPaperSummary (JObj (set_field k (JObj o) props))
  = transformEntryToPaperSummary (JObj (set_field k (JArr [JObj o]) props))
  /\ transformEntryToPaperSummary (JObj (del_field k props))
     = transformEntryToPaperSummary (JObj (set_field k (JArr []) props)).
Proof.
  intros Hk. simpl in Hk.
  destruct Hk as [<-|[<-|[<-|[]]]]; split;
    apply transform_congr;
    rewrite ?get_set_field, ?get_del_field; reflexivity.
Qed.

Lemma single_object_as_sequence_witness :
  transformEntryToPaperSummary
    (JObj (set_field key_author (JObj [prop "name" (jstr " C ")])
             [prop "id" (jstr "http://x/abs/9999.1111v2")]))
  = transformEntryToPaperSummary
      (JObj (set_field key_author (JArr [JObj [prop "name" (jstr " C ")]])
               [prop "id" (jstr "http://x/abs/9999.1111v2")])).
Proof.
  apply (single_object_as_sequence key_author
           [prop "id" (jstr "http://x/abs/9999.1111v2")]
           [prop "name" (jstr " C ")]).
  simpl. auto.
Defined.

(** ** Title and summary *)

Lemma clean_text_string (s placeholder : jsstring) :
  clean_text (JStr s) placeholder = collapse_runs (trim s)
  /\ starts_clean (clean_text (JStr s) placeholder) = true
  /\ ends_clean (clean_text (JStr s) placeholder) = true
  /\ single_spaced (clean_text (JStr s) placeholder) = true.
Proof.
  unfold clean_text. simpl as_string. cbv iota. repeat split.
  - apply replace_ws_runs_collapse.
  - apply replace_ws_runs_starts_clean, trim_starts_clean.
  - apply replace_ws_runs_ends_clean, trim_ends_clean.
  - apply replace_ws_runs_single_spaced.
Qed.

Lemma clean_text_other (x : JSValue) (placeholder : jsstring) :
  (forall s, x <> JStr s) -> clean_text x placeholder = placeholder.
Proof.
  intros H. destruct x; try reflexivity. now destruct (H s).
Qed.

(** C6: a title (a summary) that is a string comes out trimmed, with
    every run of two or more whitespace characters turned into one
    space and no whitespace at either end; a title (a summary) that is
    absent or not a string comes out as a fixed non-empty placeholder. *)
Theorem title_summary_collapsed (e : JSValue) (p : PaperSummary) :
  transformEntryToPaperSummary e = Some p ->
  (forall s, get e key_title = JStr s ->
     title p = collapse_runs (trim s)
     /\ starts_clean (title p) = true /\ ends_clean (title p) = true
     /\ single_spaced (title p) = true)
  /\ ((forall s, get e key_title <> JStr s) -> title p = no_title)
  /\ (forall s, get e key_summary = JStr s ->
        summary p = collapse_runs (trim s)
        /\ starts_clean (summary p) = true /\ ends_clean (summary p) = true
        /\ single_spaced (summary p) = true)
  /\ ((forall s, get e key_summary <> JStr s) -> summary p = no_summary)
  /\ no_title <> [] /\ no_summary <> [].
Proof.
  intros Hp. apply transform_Some in Hp as (u & _ & _ & ->).
  unfold build_summary. simpl title. simpl summary.
  split; [|split; [|split; [|split; [|split]]]].
  - intros s ->. apply clean_text_string.
  - apply clean_text_other.
  - intros s ->. apply clean_text_string.
  - apply clean_text_other.
  - discriminate.
  - discriminate.
Qed.

Lemma title_summary_collapsed_witness :
  transformEntryToPaperSummary sample_entry = Some sample_summary
  /\ title sample_summary = collapse_runs (trim (str "  A   B "))
  /\ summary sample_summary = no_summary.
Proof.
  split; [reflexivity|].
  destruct (title_summary_collapsed sample_entry sample_summary eq_refl)
    as (Ht & _ & _ & Hs & _).
  split.
  - exact (proj1 (Ht (str "  A   B ") eq_refl)).
  - apply Hs. intros s. discriminate.
Defined.

(** ** Authors and categories *)

Lemma authors_of_summary (e : JSValue) (p : PaperSummary) :
  transformEntryToPaperSummary e = Some p ->
  authors p = flat_map author_of (to_array (get e key_author))
  /\ categories p = flat_map term_of (to_array (get e key_category)).
Proof.
  intros Hp. apply transform_Some in Hp as (u & _ & _ & ->).
  unfold build_summary. simpl authors. simpl categories. split.
  - apply extract_authors_flat_map.
  - apply extract_categories_flat_map.
Qed.

Lemma author_of_not_object (x : JSValue) :
  (forall props, x <> JObj props) -> author_of x = [].
Proof.
  intros H. destruct x; try reflexivity. now destruct (H props).
Qed.

Lemma term_of_not_object (x : JSValue) :
  (forall props, x <> JObj props) -> term_of x = [].
Proof.
  intros H. destruct x; try reflexivity. now destruct (H props).
Qed.

(** The route's [Array.isArray(x) ? x : (x ? [x] : [])] and the
    specification's sequence differ on null, [0], [false] and the empty
    string only, which contribute nothing either way. *)
Lemma to_array_sequence_of (f : JSValue -> list jsstring) (x : JSValue) :
  (forall y, (forall props, y <> JObj props) -> f y = []) ->
  flat_map f (to_array x) = flat_map f (sequence_of x).
Proof.
  intros Hf.
  assert (Hdrop : forall y, (forall props, y <> JObj props) ->
            flat_map f [] = flat_map f [y]).
  { intros y Hy. simpl. now rewrite (Hf y Hy). }
  destruct x as [| |b|n|s|items|props]; try reflexivity.
  - apply Hdrop. discriminate.
  - destruct b; [reflexivity|]. apply Hdrop. discriminate.
  - unfold to_array, truthy. destruct (negb (n =? 0)%Z); [reflexivity|].
    apply Hdrop. discriminate.
  - unfold to_array, truthy. destruct (negb (is_empty s)); [reflexivity|].
    apply Hdrop. discriminate.
Qed.

Lemma authors_all_kept (items : list JSValue) (names : list jsstring) :
  Forall2 (fun a n => get a key_name = JStr n /\ trim n <> []) items names ->
  flat_map author_of items = map trim names.
Proof.
  induction 1 as [|a n items names [Hn Hne] _ IH]; [reflexivity|].
  simpl. rewrite IH. unfold author_of. rewrite Hn.
  destruct (trim n); [contradiction|reflexivity].
Qed.

Lemma terms_all_kept (items : list JSValue) (terms : list jsstring) :
  Forall2 (fun c t => get c key_at_term = JStr t /\ t <> []) items terms ->
  flat_map term_of items = terms.
Proof.
  induction 1 as [|c t items terms [Ht Hne] _ IH]; [reflexivity|].
  simpl. rewrite IH. unfold term_of. rewrite Ht.
  destruct t; [contradiction|reflexivity].
Qed.

(** C7: the authors are those of the sequence-normalised [author]
    field (nothing when absent, the elements of a sequence, the single
    value otherwise), each element giving its trimmed name when that is
    a string that is not empty once trimmed and nothing otherwise; the
    categories are those of the sequence-normalised [category] field,
    each element giving its term when that is a non-empty string. Order
    and duplicates are kept: a sequence whose elements all have such a
    name (term) gives exactly the list of the trimmed names (terms), and
    dropping an element leaves the others where they were. *)
Theorem authors_categories_in_order (e : JSValue) (p : PaperSummary) :
  transformEntryToPaperSummary e = Some p ->
  authors p = flat_map author_of (sequence_of (get e key_author))
  /\ categories p = flat_map term_of (sequence_of (get e key_category))
  /\ (forall items names,
        get e key_author = JArr items ->
        Forall2 (fun a n => get a key_name = JStr n /\ trim n <> [])
          items names ->
        authors p = map trim names)
  /\ (forall items terms,
        get e key_category = JArr items ->
        Forall2 (fun c t => get c key_at_term = JStr t /\ t <> [])
          items terms ->
        categories p = terms)
  /\ (forall l1 x l2,
        get e key_author = JArr (l1 ++ x :: l2) -> author_of x = [] ->
        authors p = flat_map author_of l1 ++ flat_map author_of l2)
  /\ (forall l1 x l2,
        get e key_category = JArr (l1 ++ x :: l2) -> term_of x = [] ->
        categories p = flat_map term_of l1 ++ flat_map term_of l2).
Proof.
  intros Hp. destruct (authors_of_summary e p Hp) as [Ha Hc].
  rewrite (to_array_sequence_of author_of _ author_of_not_object) in Ha.
  rewrite (to_array_sequence_of term_of _ term_of_not_object) in Hc.
  split; [exact Ha|]. split; [exact Hc|].
  split; [|split; [|split]].
  - intros items names Hitems Hall. rewrite Ha, Hitems.
    exact (authors_all_kept items names Hall).
  - intros items terms Hitems Hall. rewrite Hc, Hitems.
    exact (terms_all_kept items terms Hall).
  - intros l1 x l2 Hitems Hx. rewrite Ha, Hitems. simpl sequence_of.
    rewrite flat_map_app. simpl. now rewrite Hx.
  - intros l1 x l2 Hitems Hx. rewrite Hc, Hitems. simpl sequence_of.
    rewrite flat_map_app. simpl. now rewrite Hx.
Qed.

Lemma authors_categories_in_order_witness :
  transformEntryToPaperSummary crowded_entry = Some crowded_summary
  /\ authors crowded_summary = [str "B"; str "A"; str "B"]
  /\ categories crowded_summary = [str "cs.LG"; str "cs.AI"; str "cs.LG"]
  /\ authors sample_summary = [str "C"].
Proof.
  split; [reflexivity|].
  destruct (authors_categories_in_order crowded_entry crowded_summary eq_refl)
    as (Ha & Hc & _).
  destruct (authors_categories_in_order sample_entry sample_summary eq_refl)
    as (Hs & _).
  split; [exact Ha|]. split; [exact Hc|exact Hs].
Defined.

(** ** The feed root *)

(** C8: a root [{ feed: {} }] is answered with the empty sequence of
    summaries; a root that is null or a primitive is answered with a
    server error and never with an empty sequence. *)
Theorem feed_root_outcomes (parsedData : JSValue) :
  parsedData = JNull \/ is_primitive parsedData = true ->
  GET_parsed (JObj [(key_feed, JObj [])]) = JsonPapers []
  /\ GET_parsed parsedData = JsonError 500 unexpected_format
  /\ GET_parsed parsedData <> JsonPapers [].
Proof.
  intros H. split; [reflexivity|].
  assert (Herr : GET_parsed parsedData = JsonError 500 unexpected_format).
  { destruct H as [->|H]; [reflexivity|].
    destruct parsedData; try discriminate; reflexivity. }
  split; [exact Herr|]. rewrite Herr. discriminate.
Qed.

Lemma feed_root_outcomes_witness :
  GET_parsed (JObj [(key_feed, JObj [])]) = JsonPapers []
  /\ GET_parsed (jstr "<html>") = JsonError 500 unexpected_format
  /\ GET_parsed (jstr "<html>") <> JsonPapers [].
Proof.
  apply (feed_root_outcomes (jstr "<html>")). right. reflexivity.
Defined.

(** ** Invariants of a summary *)

(** C9, as stated, fails: what follows [/abs/] in the id may itself
    begin with [http://], and it is then the summary's id. *)
Lemma id_may_be_absolute_url :
  id_of (transformEntryToPaperSummary
           (JObj [prop "id" (jstr "http://a.org/abs/http://b.org/1")]))
  = Some (str "http://b.org/1")
  /\ is_absolute_url (str "http://b.org/1") = true.
Proof. split; reflexivity. Qed.

(** C9 (amended): the id of a summary is non-empty, has no [v] in it and
    is the stretch of the entry's id that follows an [/abs/] up to the
    end or to the next [v], hence shorter than the entry's id; every
    author is non-empty after trimming and every category is
    non-empty. *)
Theorem summary_invariants (e : JSValue) (p : PaperSummary) :
  transformEntryToPaperSummary e = Some p ->
  id p <> []
  /\ forallb not_v (id p) = true
  /\ (exists u P R,
        get e key_id = JStr u /\ u = P ++ abs_seg ++ id p ++ R
        /\ (R = [] \/ exists R', R = ch_v :: R')
        /\ length (id p) + length abs_seg <= length u)
  /\ Forall (fun a => trim a <> []) (authors p)
  /\ Forall (fun c => c <> []) (categories p).
Proof.
  intros Hp.
  destruct (authors_of_summary e p Hp) as [Ha Hc].
  apply transform_Some in Hp as (u & Hid & Hm & _).
  apply match_abs_Some in Hm as (Hne & Hv & P & R & Hu & HR).
  split; [exact Hne|]. split; [exact Hv|]. split; [|split].
  - exists u, P, R. repeat split; trivial.
    rewrite Hu, !length_app. lia.
  - rewrite Ha. apply Forall_flat_map, Forall_forall.
    intros a _. apply author_of_trimmed.
  - rewrite Hc. apply Forall_flat_map, Forall_forall.
    intros c _. apply term_of_nonempty.
Qed.

Lemma summary_invariants_witness :
  transformEntryToPaperSummary sample_entry = Some sample_summary
  /\ id sample_summary <> []
  /\ Forall (fun a => trim a <> []) (authors sample_summary).
Proof.
  split; [reflexivity|].
  destruct (summary_invariants sample_entry sample_summary eq_refl)
    as (Hne & _ & _ & Ha & _).
  split; [exact Hne|exact Ha].
Defined.

(** * Further properties of the route *)

(** ** What the normaliser reads *)

Lemma str_eqb_sym (a b : jsstring) : str_eqb a b = str_eqb b a.
Proof.
  destruct (str_eqb a b) eqn:E.
  - apply str_eqb_eq in E. subst. symmetry. apply str_eqb_refl.
  - destruct (str_eqb b a) eqn:E'; [|reflexivity].
    apply str_eqb_eq in E'. subst. now rewrite str_eqb_refl in E.
Qed.

Lemma not_read_key (k k' : jsstring) :
  existsb (str_eqb k) read_keys = false -> In k' read_keys ->
  str_eqb k' k = false.
Proof.
  intros Hk Hin. rewrite str_eqb_sym.
  destruct (str_eqb k k') eqn:E; [|reflexivity].
  rewrite <- Hk. symmetry. apply existsb_exists. eauto.
Qed.

(** X1: a property of the entry that is not one of the eight the
    normaliser reads has no bearing on the result, whether it is
    written or removed. *)
Theorem unread_property_ignored (k : jsstring) (v : JSValue)
  (props : list (jsstring * JSValue)) :
  existsb (str_eqb k) read_keys = false ->
  transformEntryToPaperSummary (JObj (set_field k v props))
  = transformEntryToPaperSummary (JObj props)
  /\ transformEntryToPaperSummary (JObj (del_field k props))
     = transformEntryToPaperSummary (JObj props).
Proof.
  intros Hk.
  assert (Hset : forall k', In k' read_keys ->
            get (JObj (set_field k v props)) k' = get (JObj props) k').
  { intros k' Hin. rewrite get_set_field.
    now rewrite (not_read_key k k' Hk Hin). }
  assert (Hdel : forall k', In k' read_keys ->
            get (JObj (del_field k props)) k' = get (JObj props) k').
  { intros k' Hin. rewrite get_del_field.
    now rewrite (not_read_key k k' Hk Hin). }
  split; apply transform_congr; try reflexivity;
    rewrite ?Hset, ?Hdel by (simpl; auto 10); reflexivity.
Qed.

Lemma unread_property_ignored_witness :
  transformEntryToPaperSummary
    (JObj (set_field (str "arxiv:comment") (jstr "12 pages")
             [prop "id" (jstr "http://x/abs/9999.1111v2")]))
  = transformEntryToPaperSummary
      (JObj [prop "id" (jstr "http://x/abs/9999.1111v2")]).
Proof.
  apply (unread_property_ignored (str "arxiv:comment") (jstr "12 pages")
           [prop "id" (jstr "http://x/abs/9999.1111v2")]).
  reflexivity.
Defined.

(** X2: the two timestamps are handed on exactly as they stand, with
    no trimming and no collapsing, when they are strings, and are the
    empty string otherwise. *)
Theorem timestamps_verbatim (e : JSValue) (p : PaperSummary) :
  transformEntryToPaperSummary e = Some p ->
  (forall s, get e key_published = JStr s -> published p = s)
  /\ ((forall s, get e key_published <> JStr s) -> published p = [])
  /\ (forall s, get e key_updated = JStr s -> updated p = s)
  /\ ((forall s, get e key_updated <> JStr s) -> updated p = []).
Proof.
  intros Hp. apply transform_Some in Hp as (u & _ & _ & ->).
  unfold build_summary, timestamp. simpl published. simpl updated.
  repeat split.
  - now intros s ->.
  - intros H. destruct (get e key_published); try reflexivity.
    now destruct (H s).
  - now intros s ->.
  - intros H. destruct (get e key_updated); try reflexivity.
    now destruct (H s).
Qed.

Lemma timestamps_verbatim_witness :
  published
    (build_summary
       (JObj [prop "id" (jstr "http://x/abs/1");
              prop "published" (jstr " 2024-01-01T00:00:00Z  ")])
       (Some (str "http://x/abs/1")) (str "1"))
  = str " 2024-01-01T00:00:00Z  ".
Proof.
  apply (timestamps_verbatim
           (JObj [prop "id" (jstr "http://x/abs/1");
                  prop "published" (jstr " 2024-01-01T00:00:00Z  ")])
           _ eq_refl).
  reflexivity.
Defined.

(** ** The collection *)

Lemma to_array_object (props : list (jsstring * JSValue)) :
  to_array (JObj props) = [JObj props].
Proof. reflexivity. Qed.

Lemma map_filter_entries_length (l : list JSValue) :
  length (map_filter_entries l) <= length l.
Proof.
  induction l as [|e l IH]; simpl; [lia|].
  destruct (transformEntryToPaperSummary e); simpl; lia.
Qed.

(** X3: the summaries of a sequence of entries come in the order of
    the entries, each entry giving one summary or none whatever the
    others are: the result for two sequences put end to end is the two
    results put end to end, a summary is in the result exactly when
    some entry of the sequence is normalised to it, and there are never
    more summaries than entries. *)
Theorem summaries_follow_entries (l1 l2 : list JSValue) :
  normalize_entries (JArr (l1 ++ l2))
  = normalize_entries (JArr l1) ++ normalize_entries (JArr l2)
  /\ (forall p, In p (normalize_entries (JArr l1)) <->
                exists e, In e l1 /\ transformEntryToPaperSummary e = Some p)
  /\ length (normalize_entries (JArr l1)) <= length l1.
Proof.
  rewrite !normalize_entries_array. split; [|split].
  - apply map_filter_entries_app.
  - intros p. unfold map_filter_entries. rewrite in_flat_map. split.
    + intros (e & Hin & Hp). exists e. split; [exact Hin|].
      destruct (transformEntryToPaperSummary e) as [q|]; [|contradiction].
      destruct Hp as [->|[]]. reflexivity.
    + intros (e & Hin & Hp). exists e. split; [exact Hin|].
      rewrite Hp. now left.
  - apply map_filter_entries_length.
Qed.

(** X4: a feed whose [entry] is one object gives what the one-element
    sequence holding that object gives, and a feed whose [entry] is
    absent, null, [0], [false] or the empty string gives no summary. *)
Theorem single_entry_as_sequence (entriesRaw : JSValue) :
  (forall props, entriesRaw = JObj props ->
     normalize_entries entriesRaw = normalize_entries (JArr [entriesRaw]))
  /\ (truthy entriesRaw = false -> normalize_entries entriesRaw = []).
Proof.
  split.
  - intros props ->. rewrite normalize_entries_array.
    unfold normalize_entries. now rewrite to_array_object.
  - intros H. unfold normalize_entries.
    destruct entriesRaw; simpl in *; try discriminate; try reflexivity;
      now rewrite H.
Qed.

Lemma single_entry_as_sequence_witness :
  normalize_entries sample_entry = normalize_entries (JArr [sample_entry])
  /\ normalize_entries JNull = [].
Proof.
  destruct (single_entry_as_sequence sample_entry) as [Hobj _].
  destruct (single_entry_as_sequence JNull) as [_ Hnull].
  split; [exact (Hobj _ eq_refl)|exact (Hnull eq_refl)].
Defined.

(** ** The parsed root *)

(** X5: the handler answers with summaries exactly when the parsed root
    is an object whose [feed] is truthy, and the summaries are then
    those of the feed's [entry]; every other root, arrays included, is
    answered with status 500 and the fixed message. *)
Theorem papers_only_from_object_with_feed (parsedData : JSValue) :
  (forall papers,
     GET_parsed parsedData = JsonPapers papers <->
     (exists props, parsedData = JObj props)
     /\ truthy (get parsedData key_feed) = true
     /\ papers = normalize_entries (get (get parsedData key_feed) key_entry))
  /\ (forall status error,
        GET_parsed parsedData = JsonError status error ->
        status = 500 /\ error = unexpected_format)
  /\ ((forall props, parsedData <> JObj props) ->
      GET_parsed parsedData = JsonError 500 unexpected_format).
Proof.
  split; [|split].
  - intros papers. unfold GET_parsed. split.
    + destruct parsedData as [| | | | | |props]; try (simpl; discriminate).
      change (isArxivRawData (JObj props)) with true.
      destruct (truthy (get (JObj props) key_feed)) eqn:Hf;
        cbn [negb orb]; [|discriminate].
      intros H. injection H as <-. repeat split. now exists props.
    + intros ((props & ->) & Hfeed & ->).
      change (isArxivRawData (JObj props)) with true. now rewrite Hfeed.
  - intros status error. unfold GET_parsed.
    destruct (negb (isArxivRawData parsedData)
              || negb (truthy (get parsedData key_feed))); [|discriminate].
    intros H. injection H as <- <-. auto.
  - intros H. destruct parsedData; try reflexivity. now destruct (H props).
Qed.

Lemma papers_only_from_object_with_feed_witness :
  GET_parsed (JArr [sample_entry]) = JsonError 500 unexpected_format.
Proof.
  destruct (papers_only_from_object_with_feed (JArr [sample_entry]))
    as (_ & _ & H).
  apply H. intros props. discriminate.
Defined.

(** ** Text that has been cleaned *)

Lemma single_spaced_fixed (s : jsstring) :
  single_spaced s = true -> replace_ws_runs s = s.
Proof.
  induction s as [|c s IH]; [reflexivity|].
  destruct s as [|d s]; [reflexivity|].
  rewrite single_spaced_cons2. intros H.
  apply andb_prop in H as [Hcd Hs]. apply negb_true_iff in Hcd.
  rewrite replace_ws_runs_cons2, Hcd. f_equal. exact (IH Hs).
Qed.

Lemma clean_text_fixed (s placeholder placeholder' : jsstring) :
  clean_text (JStr (clean_text (JStr s) placeholder)) placeholder'
  = clean_text (JStr s) placeholder.
Proof.
  destruct (clean_text_string s placeholder) as (_ & Hs & He & Hss).
  unfold clean_text at 1. simpl as_string. cbv iota.
  rewrite (trim_fixed _ Hs He). apply single_spaced_fixed, Hss.
Qed.

Lemma text_of_summary (e : JSValue) (p : PaperSummary) :
  transformEntryToPaperSummary e = Some p ->
  title p = clean_text (get e key_title) no_title
  /\ summary p = clean_text (get e key_summary) no_summary.
Proof.
  intros Hp. apply transform_Some in Hp as (u & _ & _ & ->).
  split; reflexivity.
Qed.

(** X6: cleaning is idempotent: an entry whose title (summary) is the
    title (summary) of a summary already produced gets that very title
    (summary) again. *)
Theorem cleaned_text_is_stable (e e' : JSValue) (p p' : PaperSummary)
  (s s' : jsstring) :
  transformEntryToPaperSummary e = Some p ->
  transformEntryToPaperSummary e' = Some p' ->
  get e key_title = JStr s ->
  get e key_summary = JStr s' ->
  get e' key_title = JStr (title p) ->
  get e' key_summary = JStr (summary p) ->
  title p' = title p /\ summary p' = summary p.
Proof.
  intros Hp Hp' Ht Hs Ht' Hs'.
  destruct (text_of_summary e p Hp) as [Et Es].
  destruct (text_of_summary e' p' Hp') as [Et' Es'].
  rewrite Ht' in Et'. rewrite Hs' in Es'. rewrite Et', Es'.
  rewrite Et, Es, Ht, Hs. split; apply clean_text_fixed.
Qed.

Lemma cleaned_text_is_stable_witness :
  title (build_summary
           (JObj [prop "id" (jstr "http://x/abs/1"); prop "title" (jstr "A B");
                  prop "summary" (jstr "C")])
           (Some (str "http://x/abs/1")) (str "1"))
  = str "A B".
Proof.
  pose (e := JObj [prop "id" (jstr "http://x/abs/1");
                   prop "title" (jstr "  A   B ");
                   prop "summary" (jstr " C")]).
  pose (p := build_summary e (Some (str "http://x/abs/1")) (str "1")).
  pose (e' := JObj [prop "id" (jstr "http://x/abs/1"); prop "title" (jstr "A B");
                    prop "summary" (jstr "C")]).
  pose (p' := build_summary e' (Some (str "http://x/abs/1")) (str "1")).
  exact (proj1 (cleaned_text_is_stable e e' p p' (str "  A   B ") (str " C")
                  eq_refl eq_refl eq_refl eq_refl eq_refl eq_refl)).
Defined.

(** X15: a title (a summary) comes out exactly as it went in if and
    only if it has no whitespace at either end and no two whitespace
    characters in a row; a lone tab or line break inside the text is
    kept as it is. *)
Theorem text_unchanged_iff_clean (e : JSValue) (p : PaperSummary) :
  transformEntryToPaperSummary e = Some p ->
  (forall s, get e key_title = JStr s ->
     (title p = s <->
      starts_clean s && ends_clean s && single_spaced s = true))
  /\ (forall s, get e key_summary = JStr s ->
        (summary p = s <->
         starts_clean s && ends_clean s && single_spaced s = true)).
Proof.
  intros Hp. destruct (text_of_summary e p Hp) as [-> ->].
  assert (H : forall s ph,
            clean_text (JStr s) ph = s <->
            starts_clean s && ends_clean s && single_spaced s = true).
  { intros s ph. split.
    - intros E.
      destruct (clean_text_string s ph) as (_ & Hs & He & Hss).
      rewrite E in Hs, He, Hss. now rewrite Hs, He, Hss.
    - intros E. apply andb_prop in E as [E Hss].
      apply andb_prop in E as [Hs He].
      unfold clean_text. simpl as_string. cbv iota.
      rewrite (trim_fixed s Hs He). exact (single_spaced_fixed s Hss). }
  split; intros s ->; apply H.
Qed.

Lemma text_unchanged_iff_clean_witness :
  title (build_summary
           (JObj [prop "id" (jstr "http://x/abs/1");
                  prop "title" (JStr [0x41; 0x0A; 0x42]%N)])
           (Some (str "http://x/abs/1")) (str "1"))
  = [0x41; 0x0A; 0x42]%N.
Proof.
  destruct (text_unchanged_iff_clean
              (JObj [prop "id" (jstr "http://x/abs/1");
                     prop "title" (JStr [0x41; 0x0A; 0x42]%N)])
              (build_summary
                 (JObj [prop "id" (jstr "http://x/abs/1");
                        prop "title" (JStr [0x41; 0x0A; 0x42]%N)])
                 (Some (str "http://x/abs/1")) (str "1"))
              eq_refl) as [H _].
  apply (H [0x41; 0x0A; 0x42]%N eq_refl). reflexivity.
Defined.

Lemma visible_drop_while (s : jsstring) :
  visible (drop_while is_ws s) = visible s.
Proof.
  induction s as [|c s IH]; [reflexivity|]. simpl.
  destruct (is_ws c) eqn:Hc; simpl; [exact IH|now rewrite Hc].
Qed.

Lemma visible_rev (s : jsstring) : visible (rev s) = rev (visible s).
Proof.
  unfold visible. induction s as [|c s IH]; [reflexivity|]. simpl.
  rewrite filter_app, IH. simpl.
  destruct (negb (is_ws c)); simpl; [reflexivity|apply app_nil_r].
Qed.

Lemma visible_trim (s : jsstring) : visible (trim s) = visible s.
Proof.
  unfold trim.
  rewrite visible_rev, visible_drop_while, visible_rev, rev_involutive.
  apply visible_drop_while.
Qed.

Lemma visible_replace_ws_runs (s : jsstring) :
  visible (replace_ws_runs s) = visible s.
Proof.
  induction s as [s IH] using jsstring_length_ind.
  destruct s as [|c [|d s]]; [reflexivity|reflexivity|].
  rewrite replace_ws_runs_cons2.
  destruct (is_ws c) eqn:Hc; [destruct (is_ws d) eqn:Hd|]; cbn [andb].
  - change (visible (ch_space :: replace_ws_runs (drop_while is_ws s)))
      with (visible (replace_ws_runs (drop_while is_ws s))).
    rewrite IH by (simpl; pose proof (drop_while_length is_ws s); lia).
    rewrite visible_drop_while. unfold visible. simpl. now rewrite Hc, Hd.
  - unfold visible. simpl filter. rewrite Hc. simpl negb. cbv iota.
    apply (IH (d :: s)). simpl. lia.
  - unfold visible. simpl filter. rewrite Hc. simpl negb. cbv iota.
    f_equal. apply (IH (d :: s)). simpl. lia.
Qed.

Lemma trim_length (s : jsstring) : length (trim s) <= length s.
Proof.
  unfold trim. rewrite length_rev.
  pose proof (drop_while_length is_ws (rev (drop_while is_ws s))) as H1.
  pose proof (drop_while_length is_ws s) as H2.
  rewrite length_rev in H1. lia.
Qed.

Lemma replace_ws_runs_length (s : jsstring) :
  length (replace_ws_runs s) <= length s.
Proof.
  induction s as [s IH] using jsstring_length_ind.
  destruct s as [|c [|d s]];
    [simp replace_ws_runs; simpl; lia|simp replace_ws_runs; simpl; lia|].
  rewrite replace_ws_runs_cons2. destruct (is_ws c && is_ws d).
  - pose proof (drop_while_length is_ws s) as Hd.
    assert (Hl : length (drop_while is_ws s) < length (c :: d :: s))
      by (simpl; lia).
    specialize (IH _ Hl). simpl. lia.
  - assert (Hl : length (d :: s) < length (c :: d :: s)) by (simpl; lia).
    specialize (IH _ Hl). simpl in *. lia.
Qed.

(** X7: cleaning a title (a summary) only touches whitespace: the code
    units that are not whitespace are those of the field, in the same
    order, and the result is never longer than the field. *)
Theorem cleaning_keeps_visible_text (e : JSValue) (p : PaperSummary) :
  transformEntryToPaperSummary e = Some p ->
  (forall s, get e key_title = JStr s ->
     visible (title p) = visible s /\ length (title p) <= length s)
  /\ (forall s, get e key_summary = JStr s ->
        visible (summary p) = visible s /\ length (summary p) <= length s).
Proof.
  intros Hp. apply transform_Some in Hp as (u & _ & _ & ->).
  unfold build_summary, clean_text. simpl title. simpl summary.
  split; intros s ->; simpl as_string; cbv iota; split.
  - now rewrite visible_replace_ws_runs, visible_trim.
  - pose proof (replace_ws_runs_length (trim s)).
    pose proof (trim_length s). lia.
  - now rewrite visible_replace_ws_runs, visible_trim.
  - pose proof (replace_ws_runs_length (trim s)).
    pose proof (trim_length s). lia.
Qed.

Lemma cleaning_keeps_visible_text_witness :
  visible (title sample_summary) = visible (str "  A   B ")
  /\ length (title sample_summary) <= length (str "  A   B ").
Proof.
  destruct (cleaning_keeps_visible_text sample_entry sample_summary eq_refl)
    as [Ht _].
  exact (Ht (str "  A   B ") eq_refl).
Defined.

(** ** The link made from the id *)

Lemma replace_unfold (s p r : jsstring) :
  replace s p r =
  match strip_prefix p s with
  | Some rest => r ++ rest
  | None => match s with
            | [] => []
            | c :: s' => c :: replace s' p r
            end
  end.
Proof. destruct s; reflexivity. Qed.

(** [replace] rewrites an occurrence of the pattern and nothing else. *)
Lemma replace_split (s p r : jsstring) :
  includes s p = true ->
  exists P R, s = P ++ p ++ R /\ replace s p r = P ++ r ++ R.
Proof.
  induction s as [|c s IH]; intros H; rewrite replace_unfold.
  - simpl in H. unfold startsWith in H.
    destruct (strip_prefix p []) as [rest|] eqn:E; [|discriminate].
    apply strip_prefix_Some in E. now exists [], rest.
  - destruct (strip_prefix p (c :: s)) as [rest|] eqn:E.
    + apply strip_prefix_Some in E. now exists [], rest.
    + simpl in H. unfold startsWith in H. rewrite E in H. simpl in H.
      destruct (IH H) as (P & R & -> & ->). now exists (c :: P), R.
Qed.

(** The first occurrence is the one rewritten. *)
Lemma replace_first (P p R r : jsstring) :
  indexOf (P ++ p ++ R) p = Some (length P) ->
  replace (P ++ p ++ R) p r = P ++ r ++ R.
Proof.
  intros H. induction P as [|x P IH].
  - simpl app. now rewrite replace_unfold, strip_prefix_app.
  - simpl app in *. apply indexOf_cons_S in H as [Hs Hi].
    rewrite replace_unfold, (strip_prefix_of_startsWith_false _ _ Hs).
    f_equal. auto.
Qed.

Lemma absolute_after_replace (P R : jsstring) :
  is_absolute_url (P ++ pdf_seg ++ R ++ pdf_ext) = true ->
  is_absolute_url (P ++ abs_seg ++ R) = true.
Proof.
  unfold is_absolute_url. intros H.
  apply orb_true_iff in H as [H|H]; apply startsWith_true in H as [t Ht];
    apply orb_true_iff; [left|right]; apply startsWith_true.
  - destruct P as [|p0 [|p1 [|p2 [|p3 [|p4 [|p5 [|p6 P]]]]]]];
      simpl in Ht; try discriminate; injection Ht; intros; subst;
      try discriminate; eexists; reflexivity.
  - destruct P as [|p0 [|p1 [|p2 [|p3 [|p4 [|p5 [|p6 [|p7 P]]]]]]]];
      simpl in Ht; try discriminate; injection Ht; intros; subst;
      try discriminate; eexists; reflexivity.
Qed.

Lemma absolute_replace (u : jsstring) :
  includes u abs_seg = true ->
  is_absolute_url (replace u abs_seg pdf_seg ++ pdf_ext) = is_absolute_url u.
Proof.
  intros Hinc. destruct (is_absolute_url u) eqn:Hu.
  - unfold is_absolute_url in *. apply orb_true_iff in Hu as [H|H].
    + now rewrite (replace_keeps_http u H).
    + rewrite (replace_keeps_https u H). apply orb_true_r.
  - destruct (replace_split u abs_seg pdf_seg Hinc) as (P & R & -> & Hr).
    rewrite Hr.
    destruct (is_absolute_url ((P ++ pdf_seg ++ R) ++ pdf_ext)) eqn:E;
      [|reflexivity].
    rewrite <- !app_assoc in E. apply absolute_after_replace in E. congruence.
Qed.

(** X8: when the links hold no link titled [pdf] with a non-empty
    string href, the pdfLink of a summary is empty exactly when the
    entry's id does not begin with [http://] or [https://]; otherwise
    it begins with one of the two and ends with [.pdf]. *)
Theorem synthesized_link_absolute_or_empty (e : JSValue) (p : PaperSummary)
  (u : jsstring) :
  transformEntryToPaperSummary e = Some p ->
  get e key_id = JStr u ->
  existsb usable_pdf_link (to_array (get e key_link)) = false ->
  (pdfLink p = [] <-> is_absolute_url u = false)
  /\ (pdfLink p <> [] ->
      is_absolute_url (pdfLink p) = true
      /\ exists x, pdfLink p = x ++ pdf_ext).
Proof.
  intros Hp Hid Hlinks.
  destruct (pdfLink_of_accepted e p Hp) as (u' & Hid' & Hinc & Hpdf).
  assert (u' = u) by congruence. subst u'.
  assert (Hres : pdfLink p =
            if is_absolute_url u then replace u abs_seg pdf_seg ++ pdf_ext
            else []).
  { rewrite Hpdf. unfold resolve_pdfLink.
    rewrite (found_href_empty _ Hlinks), Hinc. simpl.
    fold (is_absolute_url (replace u abs_seg pdf_seg ++ pdf_ext)).
    now rewrite (absolute_replace u Hinc). }
  rewrite Hres. destruct (is_absolute_url u) eqn:Hu.
  - split.
    + split; [|discriminate]. intros H.
      apply (f_equal (@length code_unit)) in H.
      rewrite length_app in H. simpl in H. lia.
    + intros _. split; [|now eexists].
      now rewrite (absolute_replace u Hinc).
  - split; [now split|]. intros H. now destruct H.
Qed.

Lemma synthesized_link_absolute_or_empty_witness :
  pdfLink (build_summary (JObj [prop "id" (jstr "arxiv.org/abs/1")])
             (Some (str "arxiv.org/abs/1")) (str "1")) = [].
Proof.
  destruct (synthesized_link_absolute_or_empty
              (JObj [prop "id" (jstr "arxiv.org/abs/1")])
              (build_summary (JObj [prop "id" (jstr "arxiv.org/abs/1")])
                 (Some (str "arxiv.org/abs/1")) (str "1"))
              (str "arxiv.org/abs/1") eq_refl eq_refl eq_refl) as [H _].
  apply H. reflexivity.
Defined.

Lemma pdfLink_build_summary (e : JSValue) (idUrl : option jsstring)
  (a : jsstring) :
  pdfLink (build_summary e idUrl a) = resolve_pdfLink idUrl (get e key_link).
Proof. reflexivity. Qed.

(** X9: the id of a summary loses the version suffix and the link made
    from the id keeps it: for an id [P/abs/<ID>v<N>] with an absolute
    [P], this [/abs/] the first of the id, a non-empty [<ID>] without
    [v] and no usable link titled [pdf], the summary's id is [<ID>] and
    its pdfLink is [P/pdf/<ID>v<N>.pdf]. *)
Theorem link_keeps_version (e : JSValue) (P ID N : jsstring) :
  get e key_id = JStr (P ++ abs_seg ++ ID ++ ch_v :: N) ->
  indexOf (P ++ abs_seg ++ ID ++ ch_v :: N) abs_seg = Some (length P) ->
  ID <> [] ->
  forallb not_v ID = true ->
  is_absolute_url P = true ->
  existsb usable_pdf_link (to_array (get e key_link)) = false ->
  exists p,
    transformEntryToPaperSummary e = Some p
    /\ id p = ID
    /\ pdfLink p = P ++ pdf_seg ++ ID ++ ch_v :: N ++ pdf_ext.
Proof.
  intros Hid Hfirst Hne Hv HP Hlinks.
  assert (Hm : match_abs (P ++ abs_seg ++ ID ++ ch_v :: N) = Some ID).
  { apply match_abs_first; trivial. right. now exists N. }
  pose proof (transform_accept e _ _ Hid Hm) as Hp.
  eexists. split; [exact Hp|]. split; [reflexivity|].
  rewrite pdfLink_build_summary. unfold resolve_pdfLink.
  rewrite (found_href_empty _ Hlinks), (match_abs_includes _ _ Hm).
  rewrite (replace_first P abs_seg (ID ++ ch_v :: N) pdf_seg Hfirst).
  assert (Habs : is_absolute_url
                   ((P ++ pdf_seg ++ ID ++ ch_v :: N) ++ pdf_ext) = true).
  { unfold is_absolute_url in *.
    apply orb_true_iff in HP as [H|H]; apply startsWith_true in H as [t ->];
      apply orb_true_iff; [left|right]; apply startsWith_true;
      rewrite <- !app_assoc; eexists; reflexivity. }
  cbn [is_empty andb]. cbv zeta.
  unfold is_absolute_url in Habs. rewrite Habs.
  rewrite <- !app_assoc. reflexivity.
Qed.

Lemma link_keeps_version_witness :
  exists p,
    transformEntryToPaperSummary
      (JObj [prop "id" (jstr "http://arxiv.org/abs/1234.5678v2")]) = Some p
    /\ id p = str "1234.5678"
    /\ pdfLink p = str "http://arxiv.org/pdf/1234.5678v2.pdf".
Proof.
  apply (link_keeps_version
           (JObj [prop "id" (jstr "http://arxiv.org/abs/1234.5678v2")])
           (str "http://arxiv.org") (str "1234.5678") (str "2")).
  - reflexivity.
  - reflexivity.
  - discriminate.
  - reflexivity.
  - reflexivity.
  - reflexivity.
Defined.

(** ** What follows the version marker *)

Lemma take_while_before_stop (p : code_unit -> bool) (r N : jsstring)
  (c : code_unit) :
  p c = false -> take_while p (r ++ c :: N) = take_while p r.
Proof.
  intros Hc. induction r as [|x r IH]; simpl.
  - now rewrite Hc.
  - destruct (p x); [now rewrite IH|reflexivity].
Qed.

Lemma strip_prefix_before_v (pat A N : jsstring) :
  forallb not_v pat = true ->
  strip_prefix pat (A ++ ch_v :: N) =
  match strip_prefix pat A with
  | Some r => Some (r ++ ch_v :: N)
  | None => None
  end.
Proof.
  revert A. induction pat as [|y pat IH]; intros A Hpat; [reflexivity|].
  simpl in Hpat. apply andb_prop in Hpat as [Hy Hpat].
  destruct A as [|x A]; simpl.
  - unfold not_v in Hy. apply negb_true_iff in Hy. now rewrite Hy.
  - destruct (N.eqb y x); [now apply IH|reflexivity].
Qed.

Lemma match_abs_before_v (A N t : jsstring) :
  match_abs A = Some t -> match_abs (A ++ ch_v :: N) = Some t.
Proof.
  induction A as [|x A IH]; [discriminate|].
  change ((x :: A) ++ ch_v :: N) with (x :: (A ++ ch_v :: N)).
  rewrite !match_abs_cons.
  change (x :: (A ++ ch_v :: N)) with ((x :: A) ++ ch_v :: N).
  rewrite (strip_prefix_before_v abs_seg (x :: A) N eq_refl).
  destruct (strip_prefix abs_seg (x :: A)) as [r|]; [|exact IH].
  rewrite (take_while_before_stop not_v r N ch_v eq_refl).
  destruct (take_while not_v r); [exact IH|trivial].
Qed.

(** X10: whatever is appended to an accepted id after a [v] changes
    neither the acceptance nor the id of the summary. *)
Theorem suffix_after_v_ignored (e e' : JSValue) (p : PaperSummary)
  (u N : jsstring) :
  transformEntryToPaperSummary e = Some p ->
  get e key_id = JStr u ->
  get e' key_id = JStr (u ++ ch_v :: N) ->
  exists p', transformEntryToPaperSummary e' = Some p' /\ id p' = id p.
Proof.
  intros Hp Hid Hid'.
  apply transform_Some in Hp as (u0 & Hid0 & Hm & _).
  assert (u0 = u) by congruence. subst u0.
  pose proof (match_abs_before_v u N (id p) Hm) as Hm'.
  eexists. split; [exact (transform_accept e' _ _ Hid' Hm')|reflexivity].
Qed.

Lemma suffix_after_v_ignored_witness :
  exists p',
    transformEntryToPaperSummary
      (JObj [prop "id" (jstr "http://x/abs/9999.1111v2v7/extra")]) = Some p'
    /\ id p' = id sample_summary.
Proof.
  apply (suffix_after_v_ignored sample_entry
           (JObj [prop "id" (jstr "http://x/abs/9999.1111v2v7/extra")])
           sample_summary (str "http://x/abs/9999.1111v2") (str "7/extra"));
    reflexivity.
Defined.

(** ** Where authors and categories come from *)

Lemma flat_map_at_most_one {A B : Type} (f : A -> list B) (l : list A) :
  (forall x, length (f x) <= 1) -> length (flat_map f l) <= length l.
Proof.
  intros H. induction l as [|x l IH]; simpl; [lia|].
  rewrite length_app. specialize (H x). lia.
Qed.

Lemma author_of_length (auth : JSValue) : length (author_of auth) <= 1.
Proof.
  unfold author_of. destruct (get auth key_name); simpl; try lia.
  destruct (is_empty (trim s)); simpl; lia.
Qed.

Lemma term_of_length (cat : JSValue) : length (term_of cat) <= 1.
Proof.
  unfold term_of. destruct (get cat key_at_term); simpl; try lia.
  destruct (is_empty s); simpl; lia.
Qed.

Lemma get_string_object (x : JSValue) (k s : jsstring) :
  get x k = JStr s -> exists props, x = JObj props.
Proof. destruct x; simpl; try discriminate. eauto. Qed.

(** X11: every author of a summary is the trimmed [name] of an object
    among the entry's authors, and every category the [@_term] of an
    object among its categories, so that elements that are not objects
    (a bare string, a number, null) give nothing; there are never more
    authors or categories than elements. *)
Theorem authors_come_from_objects (e : JSValue) (p : PaperSummary) :
  transformEntryToPaperSummary e = Some p ->
  (forall a, In a (authors p) ->
     exists props n, In (JObj props) (to_array (get e key_author))
                     /\ get (JObj props) key_name = JStr n /\ a = trim n)
  /\ (forall c, In c (categories p) ->
        exists props, In (JObj props) (to_array (get e key_category))
                      /\ get (JObj props) key_at_term = JStr c)
  /\ length (authors p) <= length (to_array (get e key_author))
  /\ length (categories p) <= length (to_array (get e key_category)).
Proof.
  intros Hp. destruct (authors_of_summary e p Hp) as [-> ->].
  split; [|split; [|split]].
  - intros a Ha. apply in_flat_map in Ha as (auth & Hin & Ha).
    unfold author_of in Ha.
    destruct (get auth key_name) as [| | | |n| |] eqn:Hn; try contradiction.
    destruct (get_string_object auth key_name n Hn) as [props ->].
    exists props, n. split; [exact Hin|]. split; [exact Hn|].
    destruct (is_empty (trim n)); [contradiction|].
    destruct Ha as [<-|[]]. reflexivity.
  - intros c Hc. apply in_flat_map in Hc as (cat & Hin & Hc).
    unfold term_of in Hc.
    destruct (get cat key_at_term) as [| | | |t| |] eqn:Ht; try contradiction.
    destruct (get_string_object cat key_at_term t Ht) as [props ->].
    exists props. split; [exact Hin|].
    destruct (is_empty t); [contradiction|].
    destruct Hc as [<-|[]]. exact Ht.
  - apply flat_map_at_most_one, author_of_length.
  - apply flat_map_at_most_one, term_of_length.
Qed.

Lemma authors_come_from_objects_witness :
  length (authors sample_summary)
  <= length (to_array (get sample_entry key_author)).
Proof.
  destruct (authors_come_from_objects sample_entry sample_summary eq_refl)
    as (_ & _ & H & _).
  exact H.
Defined.

(** ** The upstream query *)

Lemma drop_while_nil (p : code_unit -> bool) (s : jsstring) :
  drop_while p s = [] <-> forallb p s = true.
Proof.
  induction s as [|c s IH]; simpl; [easy|].
  destruct (p c); simpl; [exact IH|]. split; discriminate.
Qed.

(** A string trims to nothing exactly when it is all whitespace. *)
Lemma trim_nil (s : jsstring) : trim s = [] <-> forallb is_ws s = true.
Proof.
  split.
  - intros H. apply drop_while_nil.
    pose proof (drop_while_starts_clean s) as Hc.
    destruct (drop_while is_ws s) as [|c t] eqn:E; [reflexivity|].
    exfalso. unfold trim in H. rewrite E in H.
    simpl in Hc. apply negb_true_iff in Hc.
    simpl rev in H. rewrite (drop_while_snoc is_ws (rev t) c Hc) in H.
    rewrite rev_app_distr in H. discriminate.
  - intros H. apply drop_while_nil in H. unfold trim. now rewrite H.
Qed.

Lemma use_query_blank (q : jsstring) :
  forallb is_ws q = true ->
  negb (is_empty q) && negb (str_eqb (trim q) []) = false.
Proof.
  intros H. apply trim_nil in H. rewrite H. apply andb_false_r.
Qed.

Lemma use_query_visible (q : jsstring) :
  forallb is_ws q = false ->
  negb (is_empty q) && negb (str_eqb (trim q) []) = true.
Proof.
  intros H. destruct q as [|c q]; [discriminate|]. simpl is_empty.
  destruct (str_eqb (trim (c :: q)) []) eqn:E; [|reflexivity].
  apply str_eqb_eq, trim_nil in E. congruence.
Qed.

Lemma or_else_nonempty (x : option jsstring) (d : jsstring) :
  d <> [] -> or_else x d <> [].
Proof.
  intros Hd. unfold or_else. destruct x as [[|c s]|]; simpl; easy.
Qed.

(** X12: no parameter of the upstream query is ever empty. The search
    query has no whitespace at either end, the ordering is always
    descending, and [start] and [max_results] are the request's own
    strings, unchecked, when these are non-empty, and [0] and [10]
    otherwise. *)
Theorem upstream_parameters_never_empty
  (query start0 max_results0 : option jsstring) :
  let qp := queryParams query start0 max_results0 in
  search_query qp <> []
  /\ starts_clean (search_query qp) = true
  /\ ends_clean (search_query qp) = true
  /\ (sortBy qp = relevance \/ sortBy qp = submittedDate)
  /\ sortOrder qp = descending
  /\ start qp <> [] /\ max_results qp <> []
  /\ (forall s, start0 = Some s -> s <> [] -> start qp = s)
  /\ (start0 = None \/ start0 = Some [] -> start qp = str "0")
  /\ (forall s, max_results0 = Some s -> s <> [] -> max_results qp = s)
  /\ (max_results0 = None \/ max_results0 = Some [] ->
      max_results qp = str "10").
Proof.
  unfold queryParams. cbv zeta. cbn [search_query sortBy sortOrder start max_results].
  assert (Hq : forall q,
            let t := if negb (is_empty q) && negb (str_eqb (trim q) [])
                     then trim q else DEFAULT_CATEGORY in
            t <> [] /\ starts_clean t = true /\ ends_clean t = true).
  { intros q. cbv zeta.
    destruct (negb (is_empty q) && negb (str_eqb (trim q) [])) eqn:E.
    - apply andb_prop in E as [_ E]. apply negb_true_iff, str_eqb_neq in E.
      split; [exact E|]. split; [apply trim_starts_clean|apply trim_ends_clean].
    - repeat split. discriminate. }
  repeat split.
  - destruct query as [q|]; [apply Hq|discriminate].
  - destruct query as [q|]; [apply Hq|reflexivity].
  - destruct query as [q|]; [apply Hq|reflexivity].
  - destruct query as [q|]; [|now right].
    destruct (negb (is_empty q) && negb (str_eqb (trim q) [])); auto.
  - apply or_else_nonempty. discriminate.
  - apply or_else_nonempty. discriminate.
  - intros s -> Hs. destruct s; [contradiction|reflexivity].
  - intros [->| ->]; reflexivity.
  - intros s -> Hs. destruct s; [contradiction|reflexivity].
  - intros [->| ->]; reflexivity.
Qed.

Lemma upstream_parameters_never_empty_witness :
  start (queryParams (Some (str "  ")) (Some []) (Some (str "abc")))
  = str "0"
  /\ max_results (queryParams (Some (str "  ")) (Some []) (Some (str "abc")))
     = str "abc".
Proof.
  destruct (upstream_parameters_never_empty
              (Some (str "  ")) (Some []) (Some (str "abc")))
    as (_ & _ & _ & _ & _ & _ & _ & _ & Hs & Hm & _).
  split.
  - apply Hs. now right.
  - apply (Hm (str "abc") eq_refl). discriminate.
Defined.

Lemma queryParams_visible (q : jsstring)
  (start0 max_results0 : option jsstring) :
  forallb is_ws q = false ->
  search_query (queryParams (Some q) start0 max_results0) = trim q
  /\ sortBy (queryParams (Some q) start0 max_results0) = relevance.
Proof.
  intros Hq. unfold queryParams. cbn [search_query sortBy].
  now rewrite (use_query_visible q Hq).
Qed.

Lemma queryParams_blank (query start0 max_results0 : option jsstring) :
  query = None \/ (exists q, query = Some q /\ forallb is_ws q = true) ->
  search_query (queryParams query start0 max_results0) = DEFAULT_CATEGORY
  /\ sortBy (queryParams query start0 max_results0) = submittedDate.
Proof.
  unfold queryParams. cbn [search_query sortBy].
  intros [->|(q & -> & Hq)]; [now split|].
  now rewrite (use_query_blank q Hq).
Qed.

(** X13: the request's query is used, trimmed, and the results ranked
    by relevance exactly when it has a character that is not
    whitespace; a query that is absent, empty or all whitespace gives
    the default category ranked by submission date. *)
Theorem query_used_iff_visible
  (query start0 max_results0 : option jsstring) :
  let qp := queryParams query start0 max_results0 in
  (forall q, query = Some q -> forallb is_ws q = false ->
     search_query qp = trim q /\ sortBy qp = relevance)
  /\ (query = None \/ (exists q, query = Some q /\ forallb is_ws q = true) ->
      search_query qp = DEFAULT_CATEGORY /\ sortBy qp = submittedDate)
  /\ (sortBy qp = relevance <->
      exists q, query = Some q /\ forallb is_ws q = false).
Proof.
  cbv zeta. split; [|split; [|split]].
  - intros q -> Hq. apply queryParams_visible, Hq.
  - apply queryParams_blank.
  - intros H. destruct query as [q|].
    + destruct (forallb is_ws q) eqn:Hq; [|now exists q].
      destruct (queryParams_blank (Some q) start0 max_results0) as [_ Hb];
        [right; now exists q|].
      rewrite Hb in H. discriminate.
    + destruct (queryParams_blank None start0 max_results0) as [_ Hb];
        [now left|].
      rewrite Hb in H. discriminate.
  - intros (q & -> & Hv). apply queryParams_visible, Hv.
Qed.

Lemma query_used_iff_visible_witness :
  search_query (queryParams (Some (str " graph  neural ")) None None)
  = str "graph  neural"
  /\ sortBy (queryParams (Some (str " graph  neural ")) None None) = relevance.
Proof.
  destruct (query_used_iff_visible (Some (str " graph  neural ")) None None)
    as (H & _).
  exact (H (str " graph  neural ") eq_refl eq_refl).
Defined.

(** X14: the cache lifetime follows the request's query as it was
    sent, not as it is used: it is 600 exactly when the query is a
    non-empty string and 3600 otherwise, so that a query made of
    whitespace only gets the default category with the lifetime 600,
    while a lifetime of 3600 always goes with the default category. *)
Theorem lifetime_follows_raw_query
  (query start0 max_results0 : option jsstring) :
  let qp := queryParams query start0 max_results0 in
  (revalidate query = 600 <-> exists q, query = Some q /\ q <> [])
  /\ (revalidate query = 3600 <-> query = None \/ query = Some [])
  /\ (revalidate query = 3600 ->
      search_query qp = DEFAULT_CATEGORY /\ sortBy qp = submittedDate)
  /\ (forall q, query = Some q -> q <> [] -> forallb is_ws q = true ->
        search_query qp = DEFAULT_CATEGORY /\ revalidate query = 600).
Proof.
  cbv zeta. unfold revalidate, given.
  split; [|split; [|split]].
  - destruct query as [[|c q]|]; simpl; split.
    + discriminate.
    + intros (q' & Hq & Hne). injection Hq as <-. contradiction.
    + intros _. exists (c :: q). split; [reflexivity|discriminate].
    + reflexivity.
    + discriminate.
    + intros (q' & Hq & _). discriminate.
  - destruct query as [[|c q]|]; simpl; split.
    + auto.
    + reflexivity.
    + discriminate.
    + intros [H|H]; discriminate.
    + auto.
    + reflexivity.
  - intros H. apply queryParams_blank.
    destruct query as [[|c q]|]; simpl in H; try discriminate;
      [right; now exists []|now left].
  - intros q -> Hne Hq. split.
    + apply queryParams_blank. right. now exists q.
    + destruct q; [contradiction|reflexivity].
Qed.

Lemma lifetime_follows_raw_query_witness :
  search_query (queryParams (Some (str "   ")) None None) = DEFAULT_CATEGORY
  /\ revalidate (Some (str "   ")) = 600.
Proof.
  destruct (lifetime_follows_raw_query (Some (str "   ")) None None)
    as (_ & _ & _ & H).
  apply (H (str "   ") eq_refl); [discriminate|reflexivity].
Defined.
